(** * Indicator engine of [u_stock_learning/indicators/compute_indicators.py]

    A shallow embedding of the signal computation
    ([compute_daily_returns], [compute_indicators_for_symbol] and the
    aggregation loop of [main]) together with the properties the
    specification states about it.

    Modelling choices.
    - JSON data is untyped in the source ([Dict[str, Any]]), so rows and
      snapshots are Python values: [None], numbers, strings and dicts
      (a [gmap] from keys to values).  Booleans and nested lists do not occur
      in the data the engine reads and are left out.
    - Numbers are exact rationals ([Q]).  Python computes with binary64
      floats; rounding, NaN, infinities and integers beyond the range of a
      float (whose division raises [OverflowError]) are outside this model,
      so every statement below is about the engine's arithmetic read
      exactly.
    - Python exceptions are explicit: a computation returns [Ok v] or
      [Raise e].
    - [statistics.stdev] needs a square root, which [Q] does not have; the
      root is a parameter [sqrt] of the development.
    - The engine is embedded twice: as a pure function of its arguments, on
      which the numeric and ordering properties are stated, and as a program
      on a heap of objects (module [Heap]), on which the arguments are
      shared, mutable objects; the second computes what the first does. *)

From Stdlib Require Import QArith Qabs Qminmax Lqa Permutation.
From stdpp Require Import gmap strings list fin_maps sorting.

(** ** Python values and exceptions *)

#[warnings="-register-all"]
Inductive value : Type :=
  | VNone
  | VNum (q : Q)
  | VStr (s : string)
  | VDict (d : gmap string value).

Inductive exn : Type :=
  | KeyError
  | TypeError
  | AttributeError
  | ZeroDivisionError
  | IndexError
  | StatisticsError.

Inductive result (A : Type) : Type :=
  | Ok (a : A)
  | Raise (e : exn).
Arguments Ok {A} a.
Arguments Raise {A} e.

#[global] Instance result_ret : MRet result := fun _ a => Ok a.
#[global] Instance result_bind : MBind result := fun _ _ f m =>
  match m with
  | Ok a => f a
  | Raise e => Raise e
  end.

Fixpoint mapM_result {A B} (f : A -> result B) (l : list A) : result (list B) :=
  match l with
  | [] => Ok []
  | x :: l' => y ← f x; ys ← mapM_result f l'; Ok (y :: ys)
  end.

Definition Qltb (a b : Q) : bool := negb (Qle_bool b a).

(** [bool(v)]: [None], zero, the empty string and the empty dict are falsy. *)
Definition truthy (v : value) : bool :=
  match v with
  | VNone => false
  | VNum q => negb (Qeq_bool q 0)
  | VStr s => negb (String.eqb s "")
  | VDict d => negb (Nat.eqb (size d) 0)
  end.

Definition is_none (v : value) : bool :=
  match v with VNone => true | _ => false end.

(** [v == 0]: only a number can be equal to zero. *)
Definition eq_zero (v : value) : bool :=
  match v with VNum q => Qeq_bool q 0 | _ => false end.

(** [a or b] *)
Definition py_or (a b : value) : value := if truthy a then a else b.

(** [a / b] (true division) *)
Definition py_truediv (a b : value) : result Q :=
  match a, b with
  | VNum x, VNum y => if Qeq_bool y 0 then Raise ZeroDivisionError else Ok (x / y)%Q
  | _, _ => Raise TypeError
  end.

(** [a - b] *)
Definition py_sub (a b : value) : result Q :=
  match a, b with
  | VNum x, VNum y => Ok (x - y)%Q
  | _, _ => Raise TypeError
  end.

(** [v[k]] on a dict; anything else in this model is not subscriptable. *)
Definition py_getitem (v : value) (k : string) : result value :=
  match v with
  | VDict d => match d !! k with Some x => Ok x | None => Raise KeyError end
  | _ => Raise TypeError
  end.

(** [v.get(k, dflt)]; only dicts have the method. *)
Definition py_get (v : value) (k : string) (dflt : value) : result value :=
  match v with
  | VDict d => Ok (default dflt (d !! k))
  | _ => Raise AttributeError
  end.

(** [min(a, b)] and [max(a, b)] keep the first argument on ties. *)
Definition py_min (a b : Q) : Q := if Qltb b a then b else a.
Definition py_max (a b : Q) : Q := if Qltb a b then b else a.

(** [l[-k:]] *)
Definition last_n {A} (k : nat) (l : list A) : list A :=
  skipn (length l - k) l.

(** [l[-k]] for [k >= 1]: out of range when the list has fewer than [k]
    elements. *)
Definition nth_from_end {A} (k : nat) (l : list A) : result A :=
  if length l <? k then Raise IndexError
  else match l !! (length l - k) with
       | Some x => Ok x
       | None => Raise IndexError
       end.

(** [v != 0] *)
Definition ne_zero (v : value) : bool := negb (eq_zero v).

(** An [Optional[float]] as it is stored in the output dict. *)
Definition opt_value (o : option Q) : value :=
  match o with Some q => VNum q | None => VNone end.

(** ** [sorted(l, key=...)]

    [sorted] first evaluates the key of every element, left to right, and
    then orders the elements with [<] on the keys, stably.  Two strings
    compare lexicographically and two numbers numerically; every other
    comparison of values of this model raises [TypeError].  A sort of two or
    more elements has to link them all by comparisons, so it raises exactly
    when the keys are not all strings and not all numbers.  The order itself
    is that of a stable insertion sort, which every stable sort agrees
    with. *)

Definition is_str (v : value) : bool :=
  match v with VStr _ => true | _ => false end.
Definition is_num (v : value) : bool :=
  match v with VNum _ => true | _ => false end.

Definition key_ltb (a b : value) : bool :=
  match a, b with
  | VStr s, VStr t => String.ltb s t
  | VNum x, VNum y => Qltb x y
  | _, _ => false
  end.

Definition orderable (keys : list value) : bool :=
  match keys with
  | [] | [_] => true
  | _ => forallb is_str keys || forallb is_num keys
  end.

Fixpoint insert_by_key {A} (x : value * A) (l : list (value * A))
  : list (value * A) :=
  match l with
  | [] => [x]
  | y :: l' =>
      if key_ltb y.1 x.1 then y :: insert_by_key x l' else x :: y :: l'
  end.

Definition sort_by_key {A} (l : list (value * A)) : list (value * A) :=
  foldr insert_by_key [] l.

Definition py_sorted (key : value -> result value) (l : list value)
  : result (list value) :=
  keys ← mapM_result key l;
  if orderable keys then Ok (map snd (sort_by_key (zip keys l)))
  else Raise TypeError.

(** ** [compute_daily_returns] *)

(** [l[i]] for [i >= 0] *)
Definition py_index {A} (l : list A) (i : nat) : result A :=
  match l !! i with
  | Some x => Ok x
  | None => Raise IndexError
  end.

Fixpoint foldM_result {A B} (f : B -> A -> result B) (acc : B) (l : list A)
  : result B :=
  match l with
  | [] => Ok acc
  | x :: l' => acc' ← f acc x; foldM_result f acc' l'
  end.

(** The body of the loop for one index [i]: [returns] is extended, or left
    as it is on [continue]. *)
Definition returns_step (closes : list value) (returns : list Q) (i : nat)
  : result (list Q) :=
  prev ← py_index closes (i - 1);
  curr ← py_index closes i;
  if is_none prev || eq_zero prev then Ok returns
  else q ← py_truediv curr prev; Ok (returns ++ [(q - 1)%Q]).

(** [for i in range(1, len(closes))] *)
Definition returns_of_closes (closes : list value) : result (list Q) :=
  foldM_result (returns_step closes) [] (seq 1 (length closes - 1)).

Definition compute_daily_returns (prices : list value) : result (list Q) :=
  closes ← mapM_result (fun row => py_getitem row "close") prices;
  returns_of_closes closes.

(** ** The snapshot mixer: the optional fields of [compute_indicators_for_symbol] *)

(** [if prev_close: close_return_1d = (last_close / prev_close) - 1.0] *)
Definition close_return_1d (last_close prev_close : value) : result (option Q) :=
  if truthy prev_close then
    q ← py_truediv last_close prev_close; Ok (Some (q - 1)%Q)
  else Ok None.

(** [base_prev_close = prev_close_ref or prev_close], then the guarded
    quotient. *)
Definition gap_pct (prev_close_ref prev_close today_open : value)
  : result (option Q) :=
  let base_prev_close := py_or prev_close_ref prev_close in
  if truthy base_prev_close && truthy today_open then
    q ← py_truediv today_open base_prev_close; Ok (Some (q - 1)%Q)
  else Ok None.

Definition day_range_pct (today_open today_high today_low : value)
  : result (option Q) :=
  if truthy today_open && truthy today_high && truthy today_low then
    if ne_zero today_open then
      d ← py_sub today_high today_low;
      q ← py_truediv (VNum d) today_open;
      Ok (Some q)
    else Ok None
  else Ok None.

Definition volume_ratio (today_volume avg_vol_10d : value) : result (option Q) :=
  if truthy today_volume && truthy avg_vol_10d then
    if ne_zero avg_vol_10d then
      q ← py_truediv today_volume avg_vol_10d; Ok (Some q)
    else Ok None
  else Ok None.

(** ** The composite score *)

Definition gap_points (g : Q) : Q := py_min (Qabs g * 100) 50.
Definition range_points (r : Q) : Q := py_min (r * 100) 30.
Definition volume_points (v : Q) : Q := py_min (py_max (v - 1) 0 * 10) 40.
Definition volatility_points (s : Q) : Q := py_min (s * 100) 30.

(** [if x is not None: score += f(x)] *)
Definition add_points (f : Q -> Q) (x : option Q) (score : Q) : Q :=
  match x with
  | Some v => (score + f v)%Q
  | None => score
  end.

Definition in_play_score (gap range volume vol : option Q) : Q :=
  let score := 0%Q in
  let score := add_points gap_points gap score in
  let score := add_points range_points range score in
  let score := add_points volume_points volume score in
  let score := add_points volatility_points vol score in
  score.

Section Engine.

(** The square root used by [statistics.stdev]. *)
Variable sqrt : Q -> Q.

(** ** [statistics.stdev] and the volatility window *)

Definition Qsum (l : list Q) : Q := foldr Qplus 0%Q l.

Definition Qlen (l : list Q) : Q := inject_Z (Z.of_nat (length l)).

Definition mean (l : list Q) : Q := (Qsum l / Qlen l)%Q.

(** Sum of squared deviations from the mean, divided by [n - 1]. *)
Definition sample_variance (l : list Q) : Q :=
  (Qsum (map (fun x => (x - mean l) * (x - mean l)) l) / (Qlen l - 1))%Q.

(** [statistics.stdev(data)]: the square root of the sample variance;
    [StatisticsError] on fewer than two data points. *)
Definition stdev (l : list Q) : result Q :=
  if length l <? 2 then Raise StatisticsError
  else Ok (sqrt (sample_variance l)).

Definition vol_10d (returns : list Q) : result (option Q) :=
  if 2 <=? length returns then
    let window := last_n 10 returns in
    if 2 <=? length window then s ← stdev window; Ok (Some s)
    else Ok None
  else Ok None.

(** ** [compute_indicators_for_symbol] *)

Definition compute_indicators_for_symbol
    (symbol : string) (daily_prices : list value) (fundamentals : value)
  : result (gmap string value) :=
  if length daily_prices <? 2 then Ok ∅
  else
    daily_prices_sorted ← py_sorted (fun row => py_getitem row "date") daily_prices;
    last ← nth_from_end 1 daily_prices_sorted;
    prev ← nth_from_end 2 daily_prices_sorted;
    last_close ← py_getitem last "close";
    prev_close ← py_getitem prev "close";
    close_return ← close_return_1d last_close prev_close;
    trading_snapshot ← py_get fundamentals "trading_snapshot" (VDict ∅);
    today_open ← py_get trading_snapshot "regularMarketOpen" VNone;
    today_high ← py_get trading_snapshot "regularMarketDayHigh" VNone;
    today_low ← py_get trading_snapshot "regularMarketDayLow" VNone;
    today_volume ← py_get trading_snapshot "regularMarketVolume" VNone;
    avg_vol_10d ← py_get trading_snapshot "averageDailyVolume10Day" VNone;
    prev_close_ref ← py_get trading_snapshot "regularMarketPreviousClose" VNone;
    gap ← gap_pct prev_close_ref prev_close today_open;
    range ← day_range_pct today_open today_high today_low;
    volume ← volume_ratio today_volume avg_vol_10d;
    returns ← compute_daily_returns daily_prices_sorted;
    vol ← vol_10d returns;
    Ok (<["symbol" := VStr symbol]>
        (<["close_return_1d" := opt_value close_return]>
        (<["gap_pct" := opt_value gap]>
        (<["day_range_pct" := opt_value range]>
        (<["volume_ratio" := opt_value volume]>
        (<["vol_10d" := opt_value vol]>
        (<["in_play_score" := VNum (in_play_score gap range volume vol)]> ∅))))))).

(** ** The aggregation loop of [main]

    [prices_by_symbol.items()] is the list of (symbol, rows) pairs in
    iteration order; [signals] is the dict being filled. *)

Fixpoint collect_signals
    (items : list (string * list value))
    (fundamentals_by_symbol : gmap string value)
    (signals : gmap string value) : result (gmap string value) :=
  match items with
  | [] => Ok signals
  | (symbol, price_rows) :: items' =>
      let fund := default (VDict ∅) (fundamentals_by_symbol !! symbol) in
      indicators ← compute_indicators_for_symbol symbol price_rows fund;
      if truthy (VDict indicators) then
        collect_signals items' fundamentals_by_symbol
          (<[symbol := VDict indicators]> signals)
      else collect_signals items' fundamentals_by_symbol signals
  end.

Definition main_signals
    (items : list (string * list value))
    (fundamentals_by_symbol : gmap string value) : result (gmap string value) :=
  collect_signals items fundamentals_by_symbol ∅.

End Engine.


(** * The engine on a heap of objects

    The same function with its arguments as Python objects: a list object
    holds references to its rows, rows and the fundamentals record are dict
    objects, and a program threads the heap.  Field values, nested
    snapshots included, are immutable values.  [daily_prices] is a list
    object, as annotated; other objects are rejected with [TypeError]. *)

Module Heap.

Abbreviation loc := nat (only parsing).

Inductive obj : Type :=
  | OList (items : list loc)
  | ODict (d : gmap string value).

Definition prog (A : Type) : Type :=
  gmap loc obj -> result A * gmap loc obj.

#[global] Instance prog_ret : MRet prog := fun _ a h => (Ok a, h).
#[global] Instance prog_bind : MBind prog := fun _ _ f m h =>
  match m h with
  | (Ok a, h') => f a h'
  | (Raise e, h') => (Raise e, h')
  end.

Definition raise {A} (e : exn) : prog A := fun h => (Raise e, h).

(** A computation that does not touch the heap. *)
Definition lift {A} (r : result A) : prog A := fun h => (r, h).

(** Object creation, read and in-place update. *)
Definition alloc (o : obj) : prog loc :=
  fun h => let l := fresh (dom h) in (Ok l, <[l := o]> h).
Definition load (l : loc) : prog (option obj) := fun h => (Ok (h !! l), h).
Definition store (l : loc) (o : obj) : prog unit :=
  fun h => (Ok tt, <[l := o]> h).

Fixpoint mapM_prog {A B} (f : A -> prog B) (l : list A) : prog (list B) :=
  match l with
  | [] => mret []
  | x :: l' => y ← f x; ys ← mapM_prog f l'; mret (y :: ys)
  end.

(** [len(l)] *)
Definition len (l : loc) : prog nat :=
  o ← load l;
  match o with
  | Some (OList items) => mret (length items)
  | _ => raise TypeError
  end.

(** [row[k]] *)
Definition getitem (row : loc) (k : string) : prog value :=
  o ← load row;
  match o with
  | Some (ODict d) => lift (py_getitem (VDict d) k)
  | _ => raise TypeError
  end.

(** [record.get(k, dflt)] *)
Definition get (record : loc) (k : string) (dflt : value) : prog value :=
  o ← load record;
  match o with
  | Some (ODict d) => lift (py_get (VDict d) k dflt)
  | _ => raise AttributeError
  end.

(** [l[-k]] *)
Definition index_from_end (k : nat) (l : loc) : prog loc :=
  o ← load l;
  match o with
  | Some (OList items) => lift (nth_from_end k items)
  | _ => raise TypeError
  end.

(** [sorted(l, key=...)]: the sorted references go into a new list object;
    the list at [l] is only read. *)
Definition sorted (key : loc -> prog value) (l : loc) : prog loc :=
  o ← load l;
  match o with
  | Some (OList items) =>
      keys ← mapM_prog key items;
      if orderable keys then alloc (OList (sort_by_key (zip keys items)).*2)
      else raise TypeError
  | _ => raise TypeError
  end.

(** [l.sort(key=...)]: the in-place counterpart, which the engine does not
    use. *)
Definition list_sort (key : loc -> prog value) (l : loc) : prog unit :=
  o ← load l;
  match o with
  | Some (OList items) =>
      keys ← mapM_prog key items;
      if orderable keys then store l (OList (sort_by_key (zip keys items)).*2)
      else raise TypeError
  | _ => raise TypeError
  end.

Definition compute_daily_returns (prices : loc) : prog (list Q) :=
  o ← load prices;
  match o with
  | Some (OList rows) =>
      closes ← mapM_prog (fun row => getitem row "close") rows;
      lift (returns_of_closes closes)
  | _ => raise TypeError
  end.

Section Engine.

Variable sqrt : Q -> Q.

Definition compute_indicators_for_symbol
    (symbol : string) (daily_prices fundamentals : loc)
  : prog (gmap string value) :=
  n ← len daily_prices;
  if n <? 2 then mret ∅
  else
    daily_prices_sorted ← sorted (fun row => getitem row "date") daily_prices;
    last ← index_from_end 1 daily_prices_sorted;
    prev ← index_from_end 2 daily_prices_sorted;
    last_close ← getitem last "close";
    prev_close ← getitem prev "close";
    close_return ← lift (close_return_1d last_close prev_close);
    trading_snapshot ← get fundamentals "trading_snapshot" (VDict ∅);
    today_open ← lift (py_get trading_snapshot "regularMarketOpen" VNone);
    today_high ← lift (py_get trading_snapshot "regularMarketDayHigh" VNone);
    today_low ← lift (py_get trading_snapshot "regularMarketDayLow" VNone);
    today_volume ← lift (py_get trading_snapshot "regularMarketVolume" VNone);
    avg_vol_10d ← lift (py_get trading_snapshot "averageDailyVolume10Day" VNone);
    prev_close_ref ← lift (py_get trading_snapshot "regularMarketPreviousClose" VNone);
    gap ← lift (gap_pct prev_close_ref prev_close today_open);
    range ← lift (day_range_pct today_open today_high today_low);
    volume ← lift (volume_ratio today_volume avg_vol_10d);
    returns ← compute_daily_returns daily_prices_sorted;
    vol ← lift (vol_10d sqrt returns);
    mret (<["symbol" := VStr symbol]>
         (<["close_return_1d" := opt_value close_return]>
         (<["gap_pct" := opt_value gap]>
         (<["day_range_pct" := opt_value range]>
         (<["volume_ratio" := opt_value volume]>
         (<["vol_10d" := opt_value vol]>
         (<["in_play_score" := VNum (in_play_score gap range volume vol)]> ∅))))))).

End Engine.

End Heap.


(** * The fetchers

    The fetchers talk to the data provider and to the file system; what
    they compute on the answers is modelled here: the key selection of
    fetch_fundamentals.py and the loops that make the records of a price
    frame ready for JSON (fetch_prices.py, fetch_intraday_prices.py).  A
    record is a dict with string keys, as [to_dict(orient="records")]
    returns it. *)

(** [{k: source.get(k) for k in keys if k in source}] *)
Definition pick_keys (source : gmap string value) (keys : list string)
  : gmap string value :=
  foldl (fun picked k =>
           if decide (is_Some (source !! k))
           then <[k := default VNone (source !! k)]> picked
           else picked)
        ∅ keys.

Section Records.

(** [str(v)] of an object that is not a string (a timestamp, a number). *)
Variable repr : value -> string.

(** [str(v)] *)
Definition py_str (v : value) : string :=
  match v with
  | VStr s => s
  | _ => repr v
  end.

(** The body of the record loop of [prices_to_json_ready]:
    [if isinstance(row.get("date"), (str,)): pass
     else: row["date"] = str(row["date"])] *)
Definition json_ready_row (row : gmap string value)
  : result (gmap string value) :=
  if is_str (default VNone (row !! "date")) then Ok row
  else
    date ← py_getitem (VDict row) "date";
    Ok (<["date" := VStr (py_str date)]> row).

(** [for row in subset.to_dict(orient="records"): ...; records.append(row)] *)
Definition json_ready_records (rows : list (gmap string value))
  : result (list (gmap string value)) :=
  mapM_result json_ready_row rows.

(** The body of the record loop of [fetch_intraday]:
    [if "date" in row: row["date"] = str(row["date"])] *)
Definition intraday_row (row : gmap string value) : gmap string value :=
  match row !! "date" with
  | Some date => <["date" := VStr (py_str date)]> row
  | None => row
  end.

Definition intraday_records (rows : list (gmap string value))
  : list (gmap string value) :=
  map intraday_row rows.

End Records.
(** * Vocabulary of the specification *)

(** ** Snapshot fields

    A snapshot field read with [.get] is a number or [None] (absent and
    null are the same to the engine); [opt_value] turns such a field into
    the value the engine sees. *)

Definition absent_or_zero (f : option Q) : Prop :=
  match f with
  | None => True
  | Some q => (q == 0)%Q
  end.

Definition nonzero (f : option Q) (q : Q) : Prop :=
  f = Some q /\ ~ (q == 0)%Q.

(** The statement of the specification for [day_range_pct]: defined as soon
    as the three fields are present and the open is not zero. *)
Definition day_range_as_stated (o h l : option Q) : Prop :=
  forall qo qh ql, o = Some qo -> h = Some qh -> l = Some ql ->
    ~ (qo == 0)%Q ->
    day_range_pct (opt_value o) (opt_value h) (opt_value l)
    = Ok (Some ((qh - ql) / qo)%Q).

(** The statement of the specification for [gap_pct]: the base is the
    snapshot's previous close whenever that field is present, [prev.close]
    otherwise, and the gap is defined as soon as a base and an open are
    present. *)
Definition gap_base_as_stated (prev_close_ref prev_close : option Q) : option Q :=
  match prev_close_ref with
  | Some r => Some r
  | None => prev_close
  end.

Definition gap_as_stated (prev_close_ref prev_close today_open : option Q) : Prop :=
  forall b o, gap_base_as_stated prev_close_ref prev_close = Some b ->
    today_open = Some o ->
    gap_pct (opt_value prev_close_ref) (opt_value prev_close) (opt_value today_open)
    = Ok (Some (o / b - 1)%Q).

(** The statement of the specification for [volume_ratio]: defined as soon
    as both fields are present and the average is not zero. *)
Definition volume_ratio_as_stated (today_volume avg_vol_10d : option Q) : Prop :=
  forall v a, today_volume = Some v -> avg_vol_10d = Some a -> ~ (a == 0)%Q ->
    volume_ratio (opt_value today_volume) (opt_value avg_vol_10d)
    = Ok (Some (v / a)%Q).

(** ** Bars and closing-price sequences *)

(** A bar as the loader writes it, reduced to the two fields the engine
    reads. *)
Definition bar (date : string) (close : value) : value :=
  VDict (<["date" := VStr date]> (<["close" := close]> ∅)).

(** A bar without a [close] key. *)
Definition bar_without_close (date : string) : value :=
  VDict (<["date" := VStr date]> ∅).

(** The closes of a price sequence, [[row["close"] for row in prices]]. *)
Definition closes_of (prices : list value) : result (list value) :=
  mapM_result (fun row => py_getitem row "close") prices.

(** A denominator close that is missing ([None]) or zero. *)
Definition unusable (v : value) : bool := is_none v || eq_zero v.

(** Number of adjacent pairs whose denominator is missing or zero. *)
Fixpoint skipped_pairs (closes : list value) : nat :=
  match closes with
  | prev :: (curr :: _) as rest =>
      (if unusable prev then 1 else 0) + skipped_pairs rest
  | _ => 0
  end.

(** The loop of the return calculator, read as a walk over the adjacent
    pairs [(prev, curr)] of the closes. *)
Fixpoint returns_of_pairs (closes : list value) : result (list Q) :=
  match closes with
  | prev :: (curr :: _) as rest =>
      if unusable prev then returns_of_pairs rest
      else
        q ← py_truediv curr prev;
        rs ← returns_of_pairs rest;
        Ok ((q - 1)%Q :: rs)
  | _ => Ok []
  end.

(** A pair the engine can handle: it is skipped, or both closes are
    numbers. *)
Definition pair_divides (prev curr : value) : bool :=
  unusable prev || (is_num prev && is_num curr).

Fixpoint returns_defined (closes : list value) : bool :=
  match closes with
  | prev :: (curr :: _) as rest => pair_divides prev curr && returns_defined rest
  | _ => true
  end.

Definition num (v : value) : Q :=
  match v with VNum q => q | _ => 0%Q end.

(** The return of one adjacent pair [(prev, curr)], if it is not skipped. *)
Definition pair_return (p : value * value) : option Q :=
  if unusable p.1 then None else Some (num p.2 / num p.1 - 1)%Q.

(** The statement of the specification for the length of the returns: on
    every price sequence the calculator returns, and the result has
    [n - 1] entries minus the skipped pairs. *)
Definition returns_length_as_stated (prices : list value) : Prop :=
  exists closes rs,
    closes_of prices = Ok closes
    /\ compute_daily_returns prices = Ok rs
    /\ length rs = length prices - 1 - skipped_pairs closes.

(** ** Score contributions *)

(** The contribution of one optional input to the score: the capped points
    when the input is defined, nothing otherwise. *)
Definition contribution (f : Q -> Q) (x : option Q) : Q :=
  match x with
  | Some v => f v
  | None => 0%Q
  end.

Definition nonneg_if_defined (x : option Q) : Prop :=
  forall v, x = Some v -> (0 <= v)%Q.

(** ** A computable square root

    A lower approximation of the square root to six decimal places, to run
    the engine on concrete data. *)
Definition sqrt_approx (q : Q) : Q :=
  Z.sqrt (Qnum q * 10 ^ 12 / Z.pos (Qden q)) # 10 ^ 6.

(** ** Dates *)

(** The sort keys of a bar list, [[row["date"] for row in prices]]. *)
Definition dates_of (prices : list value) : result (list value) :=
  mapM_result (fun row => py_getitem row "date") prices.

(** Two dates are the same date when they are equal in Python: equal
    strings, or numbers of equal value.  [date_id] picks one representative
    per date. *)
Definition date_id (k : value) : value :=
  match k with
  | VNum q => VNum (Qred q)
  | _ => k
  end.

(** Two keys that [<] can compare. *)
Definition same_class (a b : value) : Prop :=
  (is_str a = true /\ is_str b = true) \/ (is_num a = true /\ is_num b = true).

(** All keys are strings, or all keys are numbers. *)
Definition uniform (ks : list value) : Prop :=
  Forall (fun v => is_str v = true) ks \/ Forall (fun v => is_num v = true) ks.

(** The date of a bar, [row["date"]], for a bar that has one. *)
Definition date_of (row : value) : value :=
  match py_getitem row "date" with
  | Ok k => k
  | Raise _ => VNone
  end.

(** A bar paired with its sort key. *)
Definition keyed (row : value) : value * value := (date_of row, row).

(** ** Heaps *)

(** A program only extends the heap: every object it starts with is still
    there, with the same contents, when it ends (normally or not). *)
Definition extends {A} (m : Heap.prog A) : Prop :=
  forall h, h ⊆ (m h).2.

(** The row object at [l] holds the bar [r]. *)
Definition row_at (h : gmap nat Heap.obj) (l : nat) (r : value) : Prop :=
  exists d, h !! l = Some (Heap.ODict d) /\ r = VDict d.

(** A program reads the heap [h] without changing it and computes what the
    pure computation [r] does, up to the relation [R] on results. *)
Definition sim {A B} (R : A -> B -> Prop) (m : Heap.prog A)
    (h : gmap nat Heap.obj) (r : result B) : Prop :=
  match r with
  | Ok b => exists a, m h = (Ok a, h) /\ R a b
  | Raise e => m h = (Raise e, h)
  end.

(** Two keyed lists with the same keys and related payloads. *)
Definition keyed_rel {A B} (R : A -> B -> Prop) (x : value * A) (y : value * B)
  : Prop :=
  x.1 = y.1 /\ R x.2 y.2.

(** A heap with two row objects and a list object that holds them out of
    date order. *)
Definition sample_heap : gmap nat Heap.obj :=
  <[0 := Heap.ODict (<["date" := VStr "2024-01-02"]> (<["close" := VNum 110]> ∅))]>
  (<[1 := Heap.ODict (<["date" := VStr "2024-01-01"]> (<["close" := VNum 100]> ∅))]>
  (<[2 := Heap.OList [0; 1]]>
  (<[3 := Heap.ODict ∅]> ∅))).

(** ** Reading a computed record *)

(** One field of the record the engine returns. *)
Definition field (r : result (gmap string value)) (k : string)
  : result (option value) :=
  m ← r; Ok (m !! k).

(** The snapshot of the specification's second scenario. *)
Definition sample_fundamentals : value :=
  VDict (<["trading_snapshot" :=
             VDict (<["regularMarketOpen" := VNum 108]>
                   (<["regularMarketDayHigh" := VNum 112]>
                   (<["regularMarketDayLow" := VNum 107]>
                   (<["regularMarketPreviousClose" := VNum 100]> ∅))))]> ∅).

(** * Further vocabulary *)

(** ** Returns *)

Definition Qprod (l : list Q) : Q := foldr Qmult 1%Q l.

(** A close quoted in another unit: a number is multiplied by [c]. *)
Definition scale (c : Q) (v : value) : value :=
  match v with
  | VNum q => VNum (c * q)%Q
  | _ => v
  end.

(** Two outcomes of the return calculator that agree: the same exception,
    or returns of equal value, one by one. *)
Definition same_returns (r r' : result (list Q)) : Prop :=
  match r, r' with
  | Ok rs, Ok rs' => Forall2 Qeq rs rs'
  | Raise e, Raise e' => e = e'
  | _, _ => False
  end.

(** ** Records *)

(** The keys of the record the engine returns for a symbol. *)
Definition signal_keys : gset string :=
  list_to_set ["symbol"; "close_return_1d"; "gap_pct"; "day_range_pct";
               "volume_ratio"; "vol_10d"; "in_play_score"].

Definition is_dict (v : value) : bool :=
  match v with VDict _ => true | _ => false end.

(** Two bars, and the record the engine returns for them with
    [sample_fundamentals]. *)
Definition sample_bars : list value :=
  [bar "2024-01-01" (VNum 100); bar "2024-01-02" (VNum 110)].

Definition sample_record : gmap string value :=
  <["symbol" := VStr "AAPL"]>
  (<["close_return_1d" := VNum (110 / 100 - 1)]>
  (<["gap_pct" := VNum (108 / 100 - 1)]>
  (<["day_range_pct" := VNum ((112 - 107) / 108)]>
  (<["volume_ratio" := VNone]>
  (<["vol_10d" := VNone]>
  (<["in_play_score" :=
       VNum (in_play_score (Some (108 / 100 - 1)%Q)
               (Some ((112 - 107) / 108)%Q) None None)]> ∅)))))).

(** ** Date order *)

(** [date_le a b]: the date of bar [a] is not after the date of bar [b]
    (Python's [not (b["date"] < a["date"])]). *)
Definition date_le (a b : value) : Prop :=
  key_ltb (date_of b) (date_of a) = false.

(** The same on rows paired with their sort keys. *)
Definition key_le {A} (a b : value * A) : Prop := key_ltb b.1 a.1 = false.

(** ** Records of a price frame *)

Definition has_date (row : gmap string value) : Prop :=
  is_Some (row !! "date").

(** A record after the loops: its date, if it has one, is a string. *)
Definition string_date (row : gmap string value) : Prop :=
  forall v, row !! "date" = Some v -> is_str v = true.

(** A stand-in for [str] on timestamps, for the examples. *)
Definition sample_repr (v : value) : string :=
  match v with
  | VNum _ => "2024-01-02 00:00:00"
  | _ => "None"
  end.

(** * Properties *)

(** ** The scenarios of the specification, run on the model *)

Example scenario_empty_fundamentals :
  let r := compute_indicators_for_symbol sqrt_approx "AAPL"
             [bar "2024-01-01" (VNum 100); bar "2024-01-02" (VNum 110)]
             (VDict ∅) in
  field r "close_return_1d" = Ok (Some (VNum (110 / 100 - 1)))
  /\ field r "gap_pct" = Ok (Some VNone)
  /\ field r "day_range_pct" = Ok (Some VNone)
  /\ field r "volume_ratio" = Ok (Some VNone)
  /\ field r "vol_10d" = Ok (Some VNone)
  /\ field r "in_play_score" = Ok (Some (VNum 0)).
Proof. vm_compute. repeat split. Qed.

Example scenario_snapshot :
  let r := compute_indicators_for_symbol sqrt_approx "AAPL"
             [bar "2024-01-01" (VNum 100); bar "2024-01-02" (VNum 110)]
             sample_fundamentals in
  field r "gap_pct" = Ok (Some (VNum (108 / 100 - 1)))
  /\ field r "day_range_pct" = Ok (Some (VNum ((112 - 107) / 108)))
  /\ field r "volume_ratio" = Ok (Some VNone)
  /\ field r "in_play_score"
     = Ok (Some (VNum (0 + (108 / 100 - 1) * 100 + (112 - 107) / 108 * 100))).
Proof. vm_compute. repeat split. Qed.

Example scenario_volume :
  volume_ratio (VNum 2500000) (VNum 1000000) = Ok (Some (2500000 / 1000000)%Q)
  /\ (volume_points (2500000 / 1000000) == 15)%Q
  /\ (volume_points (500000 / 1000000) == 0)%Q.
Proof. vm_compute. repeat split. Qed.

Lemma truthy_nonzero f q : nonzero f q -> truthy (opt_value f) = true.
Proof.
  intros [-> Hq]. simpl. apply negb_true_iff.
  destruct (Qeq_bool q 0) eqn:E; [|reflexivity].
  apply Qeq_bool_iff in E. contradiction.
Qed.

Lemma truthy_absent_or_zero f : absent_or_zero f -> truthy (opt_value f) = false.
Proof.
  destruct f as [q|]; simpl; [|reflexivity].
  intros Hq. apply negb_false_iff. now apply Qeq_bool_iff.
Qed.

Lemma Qeq_bool_nonzero q : ~ (q == 0)%Q -> Qeq_bool q 0 = false.
Proof.
  intros Hq. destruct (Qeq_bool q 0) eqn:E; [|reflexivity].
  apply Qeq_bool_iff in E. contradiction.
Qed.

Lemma py_truediv_nonzero x y :
  ~ (y == 0)%Q -> py_truediv (VNum x) (VNum y) = Ok (x / y)%Q.
Proof. intros Hy. simpl. now rewrite Qeq_bool_nonzero. Qed.

(** C1, counterexample: with open 108, high 112 and a present low of 0 the
    truthiness guard leaves [day_range_pct] undefined, although all three
    fields are present and the open is not zero. *)
Lemma day_range_zero_low_undefined :
  day_range_pct (VNum 108) (VNum 112) (VNum 0) = Ok None
  /\ ~ day_range_as_stated (Some 108%Q) (Some 112%Q) (Some 0%Q).
Proof.
  split; [reflexivity|].
  intros H. specialize (H 108%Q 112%Q 0%Q eq_refl eq_refl eq_refl).
  assert (Hne : ~ (108 == 0)%Q) by (intros E; discriminate E).
  specialize (H Hne). discriminate H.
Qed.

(** C1, as the code has it: [day_range_pct] is [(high - low) / open] when
    open, high and low are all present and all non-zero, and it is undefined
    when any of the three is absent or zero. *)
Theorem day_range_pct_defined_iff_all_nonzero (o h l : option Q) :
  (forall qo qh ql, nonzero o qo -> nonzero h qh -> nonzero l ql ->
     day_range_pct (opt_value o) (opt_value h) (opt_value l)
     = Ok (Some ((qh - ql) / qo)%Q))
  /\ (absent_or_zero o \/ absent_or_zero h \/ absent_or_zero l ->
     day_range_pct (opt_value o) (opt_value h) (opt_value l) = Ok None).
Proof.
  split.
  - intros qo qh ql Ho Hh Hl. unfold day_range_pct.
    rewrite (truthy_nonzero _ _ Ho), (truthy_nonzero _ _ Hh),
      (truthy_nonzero _ _ Hl).
    destruct Ho as [-> Ho], Hh as [-> Hh], Hl as [-> Hl]. simpl.
    unfold ne_zero. simpl. now rewrite (Qeq_bool_nonzero _ Ho).
  - intros H. unfold day_range_pct.
    destruct H as [H|[H|H]]; apply truthy_absent_or_zero in H; rewrite H.
    + reflexivity.
    + now rewrite andb_false_r.
    + now rewrite andb_false_r.
Qed.

Lemma day_range_pct_defined_witness :
  day_range_pct (VNum 108) (VNum 112) (VNum 107)
  = Ok (Some ((112 - 107) / 108)%Q)
  /\ day_range_pct (VNum 108) VNone (VNum 107) = Ok None.
Proof.
  split.
  - apply (proj1 (day_range_pct_defined_iff_all_nonzero
                    (Some 108%Q) (Some 112%Q) (Some 107%Q)));
      (split; [reflexivity | intros E; discriminate E]).
  - apply (proj2 (day_range_pct_defined_iff_all_nonzero
                    (Some 108%Q) None (Some 107%Q))).
    right; left; exact I.
Defined.

(** C2, counterexample: a present open of 0 leaves [gap_pct] undefined
    although a base (100) and an open are both present; and a present
    previous-close field of 0 is not used as the base, the engine falls back
    to [prev.close]. *)
Lemma gap_zero_open_undefined :
  gap_pct (VNum 100) (VNum 100) (VNum 0) = Ok None
  /\ ~ gap_as_stated (Some 100%Q) (Some 100%Q) (Some 0%Q)
  /\ gap_pct (VNum 0) (VNum 100) (VNum 108) = Ok (Some (108 / 100 - 1)%Q)
  /\ ~ gap_as_stated (Some 0%Q) (Some 100%Q) (Some 108%Q).
Proof.
  split; [reflexivity|]. split; [|split; [reflexivity|]].
  - intros H. specialize (H 100%Q 0%Q eq_refl eq_refl). discriminate H.
  - intros H. specialize (H 0%Q 108%Q eq_refl eq_refl). discriminate H.
Qed.

(** C2, as the code has it: the base is the snapshot's previous close when
    that field is present and non-zero, and [prev.close] when the field is
    absent or zero; [gap_pct] is [today_open / base - 1] when the base and
    the open are both present and non-zero, and is undefined when the base
    or the open is absent or zero. *)
Theorem gap_pct_truthy_base (prev_close_ref prev_close today_open : option Q) :
  (forall r o, nonzero prev_close_ref r -> nonzero today_open o ->
     gap_pct (opt_value prev_close_ref) (opt_value prev_close) (opt_value today_open)
     = Ok (Some (o / r - 1)%Q))
  /\ (forall c o, absent_or_zero prev_close_ref -> nonzero prev_close c ->
        nonzero today_open o ->
     gap_pct (opt_value prev_close_ref) (opt_value prev_close) (opt_value today_open)
     = Ok (Some (o / c - 1)%Q))
  /\ (absent_or_zero prev_close_ref /\ absent_or_zero prev_close ->
     gap_pct (opt_value prev_close_ref) (opt_value prev_close) (opt_value today_open)
     = Ok None)
  /\ (absent_or_zero today_open ->
     gap_pct (opt_value prev_close_ref) (opt_value prev_close) (opt_value today_open)
     = Ok None).
Proof.
  unfold gap_pct, py_or. split; [|split; [|split]].
  - intros r o Hr Ho.
    rewrite (truthy_nonzero _ _ Hr). rewrite (truthy_nonzero _ _ Hr).
    rewrite (truthy_nonzero _ _ Ho).
    destruct Hr as [-> Hr], Ho as [-> Ho]. simpl.
    now rewrite (Qeq_bool_nonzero _ Hr).
  - intros c o Hr Hc Ho.
    rewrite (truthy_absent_or_zero _ Hr), (truthy_nonzero _ _ Hc),
      (truthy_nonzero _ _ Ho).
    destruct Hc as [-> Hc], Ho as [-> Ho]. simpl.
    now rewrite (Qeq_bool_nonzero _ Hc).
  - intros [Hr Hc].
    now rewrite (truthy_absent_or_zero _ Hr), (truthy_absent_or_zero _ Hc).
  - intros Ho. rewrite (truthy_absent_or_zero _ Ho). now rewrite andb_false_r.
Qed.

Lemma gap_pct_truthy_base_witness :
  gap_pct (VNum 100) (VNum 99) (VNum 108) = Ok (Some (108 / 100 - 1)%Q)
  /\ gap_pct VNone (VNum 99) (VNum 108) = Ok (Some (108 / 99 - 1)%Q)
  /\ gap_pct VNone VNone (VNum 108) = Ok None
  /\ gap_pct (VNum 100) (VNum 99) VNone = Ok None.
Proof.
  split; [|split; [|split]].
  - apply (proj1 (gap_pct_truthy_base (Some 100%Q) (Some 99%Q) (Some 108%Q)));
      (split; [reflexivity | intros E; discriminate E]).
  - apply (proj1 (proj2 (gap_pct_truthy_base None (Some 99%Q) (Some 108%Q))));
      [exact I | |]; (split; [reflexivity | intros E; discriminate E]).
  - apply (proj1 (proj2 (proj2 (gap_pct_truthy_base None None (Some 108%Q))))).
    split; exact I.
  - apply (proj2 (proj2 (proj2 (gap_pct_truthy_base (Some 100%Q) (Some 99%Q) None)))).
    exact I.
Defined.

(** C3, counterexample: a present volume of 0 with an average of 1000000
    leaves [volume_ratio] undefined instead of giving 0. *)
Lemma volume_ratio_zero_volume_undefined :
  volume_ratio (VNum 0) (VNum 1000000) = Ok None
  /\ ~ volume_ratio_as_stated (Some 0%Q) (Some 1000000%Q).
Proof.
  split; [reflexivity|].
  intros H. specialize (H 0%Q 1000000%Q eq_refl eq_refl).
  assert (Hne : ~ (1000000 == 0)%Q) by (intros E; discriminate E).
  specialize (H Hne). discriminate H.
Qed.

(** C3, as the code has it: [volume_ratio] is [today_volume / avg_vol_10d]
    when both fields are present and non-zero, and it is undefined when
    either is absent or zero (a zero volume included). *)
Theorem volume_ratio_defined_iff_both_nonzero (today_volume avg_vol_10d : option Q) :
  (forall v a, nonzero today_volume v -> nonzero avg_vol_10d a ->
     volume_ratio (opt_value today_volume) (opt_value avg_vol_10d)
     = Ok (Some (v / a)%Q))
  /\ (absent_or_zero today_volume \/ absent_or_zero avg_vol_10d ->
     volume_ratio (opt_value today_volume) (opt_value avg_vol_10d) = Ok None).
Proof.
  unfold volume_ratio. split.
  - intros v a Hv Ha.
    rewrite (truthy_nonzero _ _ Hv), (truthy_nonzero _ _ Ha).
    destruct Hv as [-> Hv], Ha as [-> Ha]. simpl.
    unfold ne_zero. simpl. now rewrite (Qeq_bool_nonzero _ Ha).
  - intros [H|H]; apply truthy_absent_or_zero in H; rewrite H.
    + reflexivity.
    + now rewrite andb_false_r.
Qed.

Lemma volume_ratio_defined_witness :
  volume_ratio (VNum 2500000) (VNum 1000000) = Ok (Some (2500000 / 1000000)%Q)
  /\ volume_ratio (VNum 0) (VNum 1000000) = Ok None.
Proof.
  split.
  - apply (proj1 (volume_ratio_defined_iff_both_nonzero
                    (Some 2500000%Q) (Some 1000000%Q)));
      (split; [reflexivity | intros E; discriminate E]).
  - apply (proj2 (volume_ratio_defined_iff_both_nonzero
                    (Some 0%Q) (Some 1000000%Q))).
    left. reflexivity.
Defined.

(** ** The return calculator *)

Lemma mapM_result_length {A B} (f : A -> result B) (l : list A) (l' : list B) :
  mapM_result f l = Ok l' -> length l' = length l.
Proof.
  revert l'. induction l as [|x l IH]; intros l' H; simpl in H.
  - injection H as <-. reflexivity.
  - destruct (f x) as [y|e]; simpl in H; [|discriminate].
    destruct (mapM_result f l) as [ys|e]; simpl in H; [|discriminate].
    injection H as <-. simpl. f_equal. now apply IH.
Qed.

Lemma skipped_pairs_le (closes : list value) :
  skipped_pairs closes <= length closes - 1.
Proof.
  induction closes as [|prev [|curr rest] IH]; simpl in *; try lia.
  destruct (unusable prev); lia.
Qed.

Lemma returns_loop_pairs (closes : list value) n :
  forall s acc prev tail,
    1 <= s ->
    drop (s - 1) closes = prev :: tail ->
    length tail = n ->
    foldM_result (returns_step closes) acc (seq s n)
    = (rs ← returns_of_pairs (prev :: tail); Ok (acc ++ rs)).
Proof.
  induction n as [|n IH]; intros s acc prev tail Hs Hdrop Hlen.
  - destruct tail; [|discriminate]. simpl. now rewrite app_nil_r.
  - destruct tail as [|curr tail]; [discriminate|].
    injection Hlen as Hlen.
    assert (Hprev : closes !! (s - 1) = Some prev).
    { rewrite <- (Nat.add_0_r (s - 1)), <- lookup_drop, Hdrop. reflexivity. }
    assert (Hcurr : closes !! s = Some curr).
    { replace s with (s - 1 + 1) at 1 by lia.
      rewrite <- lookup_drop, Hdrop. reflexivity. }
    assert (Hnext : drop (S s - 1) closes = curr :: tail).
    { replace (S s - 1) with (s - 1 + 1) by lia.
      rewrite <- drop_drop, Hdrop. reflexivity. }
    change (foldM_result (returns_step closes) acc (seq s (S n)))
      with (acc' ← returns_step closes acc s;
            foldM_result (returns_step closes) acc' (seq (S s) n)).
    change (returns_of_pairs (prev :: curr :: tail))
      with (if unusable prev then returns_of_pairs (curr :: tail)
            else q ← py_truediv curr prev;
                 rs ← returns_of_pairs (curr :: tail);
                 Ok ((q - 1)%Q :: rs)).
    assert (IH' : forall acc', foldM_result (returns_step closes) acc' (seq (S s) n)
                   = (rs ← returns_of_pairs (curr :: tail); Ok (acc' ++ rs))).
    { intros acc'. apply IH; [lia | exact Hnext | exact Hlen]. }
    set (rest := returns_of_pairs (curr :: tail)) in *. clearbody rest.
    unfold returns_step, py_index. rewrite Hprev, Hcurr. simpl.
    fold (unusable prev). destruct (unusable prev).
    + simpl. apply IH'.
    + destruct (py_truediv curr prev) as [q|e]; simpl; [|reflexivity].
      rewrite IH'. destruct rest as [rs|e]; simpl; [|reflexivity].
      now rewrite <- app_assoc.
Qed.

Lemma returns_of_closes_pairs (closes : list value) :
  returns_of_closes closes = returns_of_pairs closes.
Proof.
  unfold returns_of_closes. destruct closes as [|prev tail]; [reflexivity|].
  replace (length (prev :: tail) - 1) with (length tail) by (simpl; lia).
  rewrite (returns_loop_pairs _ _ 1 [] prev tail); [|lia|reflexivity|reflexivity].
  destruct (returns_of_pairs (prev :: tail)); reflexivity.
Qed.

Lemma returns_of_closes_defined (closes : list value) :
  returns_defined closes = true ->
  exists rs, returns_of_closes closes = Ok rs
    /\ length rs = length closes - 1 - skipped_pairs closes
    /\ rs = omap pair_return (zip closes (tl closes)).
Proof.
  rewrite returns_of_closes_pairs.
  induction closes as [|prev [|curr rest] IH]; intros Hd.
  - exists []. repeat split; reflexivity.
  - exists []. repeat split; reflexivity.
  - change (returns_defined (prev :: curr :: rest))
      with (pair_divides prev curr && returns_defined (curr :: rest)) in Hd.
    apply andb_true_iff in Hd as [Hp Hd].
    destruct (IH Hd) as (rs & Hrs & Hlen & Heq).
    pose proof (skipped_pairs_le (curr :: rest)) as Hle.
    change (returns_of_pairs (prev :: curr :: rest))
      with (if unusable prev then returns_of_pairs (curr :: rest)
            else q ← py_truediv curr prev;
                 rs ← returns_of_pairs (curr :: rest);
                 Ok ((q - 1)%Q :: rs)).
    change (skipped_pairs (prev :: curr :: rest))
      with ((if unusable prev then 1 else 0) + skipped_pairs (curr :: rest)).
    change (omap pair_return (zip (prev :: curr :: rest) (tl (prev :: curr :: rest))))
      with (match pair_return (prev, curr) with
            | Some y => y :: omap pair_return (zip (curr :: rest) (tl (curr :: rest)))
            | None => omap pair_return (zip (curr :: rest) (tl (curr :: rest)))
            end).
    set (k := skipped_pairs (curr :: rest)) in *. clearbody k.
    unfold pair_return, pair_divides in *. simpl fst; simpl snd.
    destruct (unusable prev) eqn:Hu.
    + exists rs. split; [exact Hrs|]. split; [|exact Heq].
      simpl length in *. lia.
    + simpl in Hp. apply andb_true_iff in Hp as [Hn1 Hn2].
      destruct prev as [|p| |]; try discriminate Hn1.
      destruct curr as [|c| |]; try discriminate Hn2.
      unfold unusable in Hu. simpl in Hu. simpl py_truediv. rewrite Hu.
      rewrite Hrs. simpl. exists ((c / p - 1)%Q :: rs).
      split; [reflexivity|]. split; [|now rewrite Heq].
      simpl length in *. lia.
Qed.

(** C4: a null close in the numerator position is divided, not skipped, and
    a bar without a [close] key fails the lookup: the calculator raises. *)
Theorem compute_daily_returns_raises_on_unusable_close :
  compute_daily_returns
    [bar "2024-01-01" (VNum 100); bar "2024-01-02" VNone] = Raise TypeError
  /\ compute_daily_returns
    [bar "2024-01-01" (VNum 100); bar_without_close "2024-01-02"] = Raise KeyError.
Proof. split; reflexivity. Qed.

(** C5: on closes 100, null, 50 the claim promises a result of length
    3 - 1 - 1 (one pair has a null denominator); the calculator raises
    [TypeError] at the first pair, whose numerator is the null close, and
    returns nothing.  The same slip as in C4: the guard tests the
    denominator only. *)
Theorem returns_length_fails_on_null_numerator :
  compute_daily_returns
    [bar "2024-01-01" (VNum 100); bar "2024-01-02" VNone;
     bar "2024-01-03" (VNum 50)] = Raise TypeError
  /\ ~ returns_length_as_stated
    [bar "2024-01-01" (VNum 100); bar "2024-01-02" VNone;
     bar "2024-01-03" (VNum 50)].
Proof.
  split; [reflexivity|].
  intros (closes & rs & _ & H & _). discriminate H.
Qed.

(** Away from the slip the length is as specified: when every bar has a
    close and every pair that is not skipped has numeric closes, the
    calculator returns, oldest to newest, the returns of the pairs that are
    not skipped; their number is [n - 1] minus the number of pairs whose
    denominator is null or zero, and for [n <= 1] the result is empty. *)
Lemma compute_daily_returns_length (prices closes : list value) :
  closes_of prices = Ok closes ->
  returns_defined closes = true ->
  exists rs,
    compute_daily_returns prices = Ok rs
    /\ length rs = length prices - 1 - skipped_pairs closes
    /\ rs = omap pair_return (zip closes (tl closes))
    /\ (length prices <= 1 -> rs = []).
Proof.
  intros Hc Hd. unfold compute_daily_returns. unfold closes_of in Hc.
  rewrite Hc. simpl.
  destruct (returns_of_closes_defined closes Hd) as (rs & Hrs & Hlen & Heq).
  apply mapM_result_length in Hc.
  rewrite Hc in Hlen.
  exists rs. split; [exact Hrs|]. split; [exact Hlen|]. split; [exact Heq|].
  intros Hn. destruct rs as [|r rs]; [reflexivity|]. simpl in Hlen. lia.
Qed.

Lemma compute_daily_returns_length_witness :
  exists rs,
    compute_daily_returns
      [bar "2024-01-01" VNone; bar "2024-01-02" (VNum 100);
       bar "2024-01-03" (VNum 0); bar "2024-01-04" (VNum 110);
       bar "2024-01-05" (VNum 121)] = Ok rs
    /\ length rs = 5 - 1 - 2.
Proof.
  destruct (compute_daily_returns_length
              [bar "2024-01-01" VNone; bar "2024-01-02" (VNum 100);
               bar "2024-01-03" (VNum 0); bar "2024-01-04" (VNum 110);
               bar "2024-01-05" (VNum 121)]
              [VNone; VNum 100; VNum 0; VNum 110; VNum 121]
              eq_refl eq_refl) as (rs & H1 & H2 & _).
  exists rs. split; [exact H1 | exact H2].
Defined.

(** ** The composite score *)

Lemma Qltb_true a b : Qltb a b = true -> (a < b)%Q.
Proof.
  unfold Qltb. intros H. apply negb_true_iff in H.
  apply Qnot_le_lt. intros Hle. apply Qle_bool_iff in Hle. congruence.
Qed.

Lemma Qltb_false a b : Qltb a b = false -> (b <= a)%Q.
Proof.
  unfold Qltb. intros H. apply negb_false_iff in H. now apply Qle_bool_iff.
Qed.

Lemma py_min_le_r a b : (py_min a b <= b)%Q.
Proof.
  unfold py_min. destruct (Qltb b a) eqn:E.
  - apply Qle_refl.
  - now apply Qltb_false.
Qed.

Lemma py_min_nonneg a b : (0 <= a)%Q -> (0 <= b)%Q -> (0 <= py_min a b)%Q.
Proof. intros Ha Hb. unfold py_min. now destruct (Qltb b a). Qed.

Lemma py_max_nonneg a : (0 <= py_max a 0)%Q.
Proof.
  unfold py_max. destruct (Qltb a 0) eqn:E.
  - apply Qle_refl.
  - now apply Qltb_false.
Qed.

Lemma gap_points_bounds g : (0 <= gap_points g <= 50)%Q.
Proof.
  unfold gap_points. split; [|apply py_min_le_r].
  apply py_min_nonneg; [|lra].
  pose proof (Qabs_nonneg g). lra.
Qed.

Lemma volume_points_bounds v : (0 <= volume_points v <= 40)%Q.
Proof.
  unfold volume_points. split; [|apply py_min_le_r].
  apply py_min_nonneg; [|lra].
  pose proof (py_max_nonneg (v - 1)). lra.
Qed.

Lemma range_points_le r : (range_points r <= 30)%Q.
Proof. apply py_min_le_r. Qed.

Lemma range_points_nonneg r : (0 <= r)%Q -> (0 <= range_points r)%Q.
Proof. intros Hr. unfold range_points. apply py_min_nonneg; lra. Qed.

Lemma volatility_points_le s : (volatility_points s <= 30)%Q.
Proof. apply py_min_le_r. Qed.

Lemma volatility_points_nonneg s : (0 <= s)%Q -> (0 <= volatility_points s)%Q.
Proof. intros Hs. unfold volatility_points. apply py_min_nonneg; lra. Qed.

Lemma add_points_contribution f x score :
  (add_points f x score == score + contribution f x)%Q.
Proof. destruct x as [v|]; simpl; lra. Qed.

Lemma in_play_score_sum gap range volume vol :
  (in_play_score gap range volume vol ==
   contribution gap_points gap + contribution range_points range
   + contribution volume_points volume + contribution volatility_points vol)%Q.
Proof.
  unfold in_play_score. rewrite !add_points_contribution. lra.
Qed.

(** C6, counterexample: a snapshot whose high (107) is below its low (112)
    has a negative day range; its range contribution and the score are
    negative. *)
Lemma inverted_range_scores_negative :
  day_range_pct (VNum 108) (VNum 107) (VNum 112) = Ok (Some ((107 - 112) / 108)%Q)
  /\ (contribution range_points (Some ((107 - 112) / 108)%Q) < 0)%Q
  /\ (in_play_score None (Some ((107 - 112) / 108)%Q) None None < 0)%Q.
Proof. split; [reflexivity|]. split; reflexivity. Qed.

(** C6, as the code has it: the score is the sum of the four contributions
    and an undefined input contributes 0; every contribution is at most its
    cap and the score is at most 150; the gap and volume contributions are
    never negative; the range and volatility contributions, and with them
    the score, are non-negative when day_range_pct and vol_10d are undefined
    or non-negative. *)
Theorem in_play_score_bounds (gap range volume vol : option Q) :
  (in_play_score gap range volume vol ==
   contribution gap_points gap + contribution range_points range
   + contribution volume_points volume + contribution volatility_points vol)%Q
  /\ (0 <= contribution gap_points gap <= 50)%Q
  /\ (0 <= contribution volume_points volume <= 40)%Q
  /\ (contribution range_points range <= 30)%Q
  /\ (contribution volatility_points vol <= 30)%Q
  /\ (in_play_score gap range volume vol <= 150)%Q
  /\ (nonneg_if_defined range -> 0 <= contribution range_points range)%Q
  /\ (nonneg_if_defined vol -> 0 <= contribution volatility_points vol)%Q
  /\ (nonneg_if_defined range -> nonneg_if_defined vol ->
      0 <= in_play_score gap range volume vol)%Q.
Proof.
  assert (Hg : (0 <= contribution gap_points gap <= 50)%Q).
  { destruct gap as [g|]; simpl; [apply gap_points_bounds | lra]. }
  assert (Hv : (0 <= contribution volume_points volume <= 40)%Q).
  { destruct volume as [v|]; simpl; [apply volume_points_bounds | lra]. }
  assert (Hr : (contribution range_points range <= 30)%Q).
  { destruct range as [r|]; simpl; [apply range_points_le | lra]. }
  assert (Hs : (contribution volatility_points vol <= 30)%Q).
  { destruct vol as [s|]; simpl; [apply volatility_points_le | lra]. }
  assert (Hr0 : nonneg_if_defined range ->
                (0 <= contribution range_points range)%Q).
  { intros H. destruct range as [r|]; simpl; [|lra].
    apply range_points_nonneg, H. reflexivity. }
  assert (Hs0 : nonneg_if_defined vol ->
                (0 <= contribution volatility_points vol)%Q).
  { intros H. destruct vol as [s|]; simpl; [|lra].
    apply volatility_points_nonneg, H. reflexivity. }
  pose proof (in_play_score_sum gap range volume vol) as Hsum.
  split; [exact Hsum|]. split; [exact Hg|]. split; [exact Hv|].
  split; [exact Hr|]. split; [exact Hs|].
  split; [rewrite Hsum; lra|].
  split; [exact Hr0|]. split; [exact Hs0|].
  intros H1 H2. specialize (Hr0 H1). specialize (Hs0 H2). rewrite Hsum. lra.
Qed.

Lemma in_play_score_bounds_witness :
  (0 <= in_play_score (Some (8 # 100)) (Some (5 # 108)) None None)%Q
  /\ (in_play_score (Some (8 # 100)) (Some (5 # 108)) None None <= 150)%Q.
Proof.
  pose proof (in_play_score_bounds (Some (8 # 100)) (Some (5 # 108)) None None)
    as (_ & _ & _ & _ & _ & Hup & _ & _ & Hlow).
  split; [|exact Hup].
  apply Hlow.
  - intros v Hv. injection Hv as <-. discriminate.
  - intros v Hv. discriminate Hv.
Defined.

(** ** The volatility window *)

Lemma last_n_suffix {A} (k : nat) (l : list A) :
  l = take (length l - k) l ++ last_n k l
  /\ length (last_n k l) = min (length l) k.
Proof.
  unfold last_n. split.
  - symmetry. apply take_drop.
  - rewrite length_drop. lia.
Qed.

Lemma vol_10d_nonneg (sqrt : Q -> Q) (returns : list Q) (s : Q) :
  (forall x, (0 <= sqrt x)%Q) ->
  vol_10d sqrt returns = Ok (Some s) -> (0 <= s)%Q.
Proof.
  intros Hsqrt. unfold vol_10d, stdev.
  destruct (2 <=? length returns); [|discriminate].
  destruct (2 <=? length (last_n 10 returns)); [|discriminate].
  destruct (length (last_n 10 returns) <? 2); [discriminate|].
  simpl. intros H. injection H as <-. apply Hsqrt.
Qed.

(** C7: the window is the suffix of the returns of length [min m 10];
    [vol_10d] is undefined when that length is below 2 and otherwise the
    square root of the sum of squared deviations from the window mean
    divided by [n - 1]; [stdev] never raises here. *)
Theorem vol_10d_window (sqrt : Q -> Q) (returns : list Q) :
  exists older window,
    returns = older ++ window
    /\ length window = min (length returns) 10
    /\ (min (length returns) 10 < 2 -> vol_10d sqrt returns = Ok None)
    /\ (2 <= min (length returns) 10 ->
        vol_10d sqrt returns = Ok (Some (sqrt (sample_variance window)))).
Proof.
  destruct (last_n_suffix 10 returns) as [Happ Hlen].
  exists (take (length returns - 10) returns), (last_n 10 returns).
  split; [exact Happ|]. split; [exact Hlen|].
  unfold vol_10d, stdev. split.
  - intros Hm. destruct (2 <=? length returns) eqn:E; [|reflexivity].
    apply Nat.leb_le in E. lia.
  - intros Hm.
    assert (E1 : (2 <=? length returns) = true) by (apply Nat.leb_le; lia).
    assert (E2 : (2 <=? length (last_n 10 returns)) = true)
      by (apply Nat.leb_le; lia).
    assert (E3 : (length (last_n 10 returns) <? 2) = false)
      by (apply Nat.ltb_ge; lia).
    rewrite E1, E2, E3. reflexivity.
Qed.

Lemma vol_10d_window_witness :
  exists older window,
    [1; 2; 3; 4; 5; 6; 7; 8; 9; 10; 11; 12]%Q = older ++ window
    /\ length window = 10
    /\ vol_10d sqrt_approx [1; 2; 3; 4; 5; 6; 7; 8; 9; 10; 11; 12]%Q
       = Ok (Some (sqrt_approx (sample_variance window))).
Proof.
  destruct (vol_10d_window sqrt_approx [1; 2; 3; 4; 5; 6; 7; 8; 9; 10; 11; 12]%Q)
    as (older & window & Happ & Hlen & _ & Hdef).
  exists older, window. split; [exact Happ|]. split; [exact Hlen|].
  apply Hdef. simpl. lia.
Defined.

(** ** The aggregation loop *)

Lemma bind_Ok {A B} (m : result A) (f : A -> result B) (b : B) :
  (x ← m; f x) = Ok b -> exists a, m = Ok a /\ f a = Ok b.
Proof. destruct m as [a|e]; simpl; [eauto | discriminate]. Qed.

Lemma compute_indicators_short sqrt symbol (rows : list value) fund :
  length rows < 2 ->
  compute_indicators_for_symbol sqrt symbol rows fund = Ok ∅.
Proof.
  intros H. unfold compute_indicators_for_symbol.
  apply Nat.ltb_lt in H. now rewrite H.
Qed.

Lemma compute_indicators_truthy sqrt symbol (rows : list value) fund m :
  2 <= length rows ->
  compute_indicators_for_symbol sqrt symbol rows fund = Ok m ->
  truthy (VDict m) = true.
Proof.
  intros Hlen H. unfold compute_indicators_for_symbol in H.
  apply Nat.ltb_ge in Hlen. rewrite Hlen in H.
  repeat (apply bind_Ok in H as (? & _ & H)).
  injection H as <-. simpl. apply negb_true_iff, Nat.eqb_neq.
  intros Hsize. apply map_size_empty_iff in Hsize.
  now apply insert_non_empty in Hsize.
Qed.

Lemma collect_signals_skip_short sqrt symbol (rows : list value) before after fbs signals :
  length rows < 2 ->
  collect_signals sqrt (before ++ (symbol, rows) :: after) fbs signals
  = collect_signals sqrt (before ++ after) fbs signals.
Proof.
  intros Hlen. revert signals.
  induction before as [|[s r] before IH]; intros signals; simpl.
  - now rewrite (compute_indicators_short _ _ _ _ Hlen).
  - destruct (compute_indicators_for_symbol sqrt s r _) as [ind|e]; simpl;
      [|reflexivity].
    destruct (negb _); apply IH.
Qed.

Lemma collect_signals_keys sqrt items fbs signals out (symbol : string) :
  collect_signals sqrt items fbs signals = Ok out ->
  signals !! symbol = None ->
  symbol ∉ items.*1 ->
  out !! symbol = None.
Proof.
  revert signals. induction items as [|[s r] items IH]; intros signals H Hs Hin.
  - simpl in H. now injection H as <-.
  - simpl in H. apply bind_Ok in H as (ind & _ & H).
    rewrite fmap_cons in Hin. apply not_elem_of_cons in Hin as [Hne Hin].
    simpl in Hne.
    destruct (negb _).
    + apply (IH _ H); [|exact Hin]. now rewrite lookup_insert_ne.
    + now apply (IH _ H).
Qed.

Lemma collect_signals_missing_fundamentals sqrt items (fbs : gmap string value)
    signals (symbol : string) :
  fbs !! symbol = None ->
  collect_signals sqrt items fbs signals
  = collect_signals sqrt items (<[symbol := VDict ∅]> fbs) signals.
Proof.
  intros Hf. revert signals.
  induction items as [|[s r] items IH]; intros signals; simpl; [reflexivity|].
  assert (Hd : default (VDict ∅) (fbs !! s)
               = default (VDict ∅) (<[symbol := VDict ∅]> fbs !! s)).
  { destruct (decide (symbol = s)) as [->|Hne].
    - now rewrite Hf, lookup_insert_eq.
    - now rewrite lookup_insert_ne. }
  rewrite <- Hd.
  destruct (compute_indicators_for_symbol sqrt s r _) as [ind|e]; simpl;
    [|reflexivity].
  destruct (negb _); apply IH.
Qed.

(** C8: a symbol with fewer than 2 bars yields the empty record without an
    error, whatever its fundamentals; the loop behaves as if the symbol were
    not in the price data, so the symbol is absent from the final mapping;
    and a symbol without a fundamentals entry is processed exactly as with
    an empty fundamentals record. *)
Theorem short_series_omitted sqrt (symbol : string) (rows : list value)
    (fund : value) (before after : list (string * list value))
    (fbs : gmap string value) :
  length rows < 2 ->
  compute_indicators_for_symbol sqrt symbol rows fund = Ok ∅
  /\ main_signals sqrt (before ++ (symbol, rows) :: after) fbs
     = main_signals sqrt (before ++ after) fbs
  /\ (symbol ∉ (before ++ after).*1 ->
      forall out,
        main_signals sqrt (before ++ (symbol, rows) :: after) fbs = Ok out ->
        out !! symbol = None)
  /\ (forall items, fbs !! symbol = None ->
        main_signals sqrt items fbs
        = main_signals sqrt items (<[symbol := VDict ∅]> fbs)).
Proof.
  intros Hlen. unfold main_signals.
  split; [exact (compute_indicators_short _ _ _ _ Hlen)|].
  split; [exact (collect_signals_skip_short _ _ _ _ _ _ _ Hlen)|]. split.
  - intros Hin out Hout.
    rewrite (collect_signals_skip_short _ _ _ _ _ _ _ Hlen) in Hout.
    exact (collect_signals_keys _ _ _ _ _ _ Hout (lookup_empty _) Hin).
  - intros items Hf.
    exact (collect_signals_missing_fundamentals _ _ _ _ _ Hf).
Qed.

Lemma short_series_omitted_witness :
  compute_indicators_for_symbol sqrt_approx "AAPL"
    [bar "2024-01-02" (VNum 110)] (VDict ∅) = Ok ∅
  /\ main_signals sqrt_approx
       [("AAPL", [bar "2024-01-02" (VNum 110)]);
        ("MSFT", [bar "2024-01-01" (VNum 100); bar "2024-01-02" (VNum 110)])] ∅
     = main_signals sqrt_approx
       [("MSFT", [bar "2024-01-01" (VNum 100); bar "2024-01-02" (VNum 110)])] ∅.
Proof.
  assert (Hlen : length [bar "2024-01-02" (VNum 110)] < 2) by (simpl; lia).
  pose proof (short_series_omitted sqrt_approx "AAPL"
                [bar "2024-01-02" (VNum 110)] (VDict ∅) []
                [("MSFT", [bar "2024-01-01" (VNum 100); bar "2024-01-02" (VNum 110)])]
                ∅ Hlen) as (H1 & H2 & _).
  split; [exact H1 | exact H2].
Defined.

(** ** Ordering of dates *)

Lemma ascii_compare_lt_trans a b c :
  Ascii.compare a b = Lt -> Ascii.compare b c = Lt -> Ascii.compare a c = Lt.
Proof.
  unfold Ascii.compare. rewrite !N.compare_lt_iff. apply N.lt_trans.
Qed.

Lemma string_compare_lt_trans s t u :
  String.compare s t = Lt -> String.compare t u = Lt -> String.compare s u = Lt.
Proof.
  revert t u. induction s as [|a s IH]; intros [|b t] [|c u]; simpl;
    try congruence.
  destruct (Ascii.compare a b) eqn:Eab; try discriminate;
    destruct (Ascii.compare b c) eqn:Ebc; try discriminate.
  - apply Ascii.compare_eq_iff in Eab, Ebc. subst.
    rewrite (proj2 (N.compare_eq_iff _ _) eq_refl : Ascii.compare c c = Eq).
    apply IH.
  - apply Ascii.compare_eq_iff in Eab. subst. rewrite Ebc. reflexivity.
  - apply Ascii.compare_eq_iff in Ebc. subst. rewrite Eab. reflexivity.
  - rewrite (ascii_compare_lt_trans _ _ _ Eab Ebc). reflexivity.
Qed.

Lemma string_ltb_flip s t : s <> t -> String.ltb s t = negb (String.ltb t s).
Proof.
  intros Hne. unfold String.ltb. rewrite (String.compare_antisym s t).
  destruct (String.compare t s) eqn:E; try reflexivity.
  apply String.compare_eq_iff in E. congruence.
Qed.

Lemma string_ltb_negtrans x y z :
  String.ltb z x = false -> String.ltb z y = true -> String.ltb x y = true.
Proof.
  unfold String.ltb. intros Hzx Hzy.
  destruct (String.compare z y) eqn:Ezy; try discriminate.
  destruct (String.compare z x) eqn:Ezx; try discriminate.
  - apply String.compare_eq_iff in Ezx. subst. now rewrite Ezy.
  - assert (Exz : String.compare x z = Lt)
      by (rewrite String.compare_antisym, Ezx; reflexivity).
    now rewrite (string_compare_lt_trans _ _ _ Exz Ezy).
Qed.

Lemma Qltb_intro a b : (a < b)%Q -> Qltb a b = true.
Proof.
  intros H. unfold Qltb. apply negb_true_iff.
  destruct (Qle_bool b a) eqn:E; [|reflexivity].
  apply Qle_bool_iff in E. lra.
Qed.

Lemma Qltb_flip a b : Qred a <> Qred b -> Qltb a b = negb (Qltb b a).
Proof.
  intros Hne.
  assert (Hneq : ~ (a == b)%Q) by (intros E; apply Hne; now apply Qred_complete).
  destruct (Qltb b a) eqn:E; simpl.
  - apply Qltb_true in E. destruct (Qltb a b) eqn:E'; [|reflexivity].
    apply Qltb_true in E'. lra.
  - apply Qltb_false in E. apply Qltb_intro.
    destruct (Qlt_le_dec a b) as [Hlt|Hle]; [exact Hlt|].
    exfalso. apply Hneq. now apply Qle_antisym.
Qed.

Lemma Qltb_negtrans x y z :
  Qltb z x = false -> Qltb z y = true -> Qltb x y = true.
Proof.
  intros Hzx Hzy. apply Qltb_false in Hzx. apply Qltb_true in Hzy.
  apply Qltb_intro. lra.
Qed.

Lemma same_class_sym a b : same_class a b -> same_class b a.
Proof. unfold same_class. tauto. Qed.

Lemma same_class_trans a b c : same_class a b -> same_class b c -> same_class a c.
Proof.
  unfold same_class. intros [[Ha Hb]|[Ha Hb]] [[Hb' Hc]|[Hb' Hc]]; auto;
    destruct b; discriminate.
Qed.

Lemma key_ltb_flip a b :
  same_class a b -> date_id a <> date_id b -> key_ltb a b = negb (key_ltb b a).
Proof.
  intros [[Ha Hb]|[Ha Hb]] Hne; destruct a, b; try discriminate; simpl in *.
  - apply string_ltb_flip. congruence.
  - apply Qltb_flip. congruence.
Qed.

Lemma key_ltb_negtrans x y z :
  same_class z x -> same_class z y ->
  key_ltb z x = false -> key_ltb z y = true -> key_ltb x y = true.
Proof.
  intros [[Hz Hx]|[Hz Hx]] [[Hz' Hy]|[Hz' Hy]];
    destruct x, y, z; try discriminate; simpl.
  - apply string_ltb_negtrans.
  - apply Qltb_negtrans.
Qed.

(** ** Sorting is insensitive to the input order *)

Lemma mapM_result_Ok_map {A B} (f : A -> result B) (g : A -> B) l ks :
  (forall x y, f x = Ok y -> g x = y) ->
  mapM_result f l = Ok ks ->
  ks = map g l /\ Forall (fun x => f x = Ok (g x)) l.
Proof.
  intros Hg. revert ks. induction l as [|x l IH]; intros ks H; simpl in H.
  - injection H as <-. split; [reflexivity | constructor].
  - apply bind_Ok in H as (y & Hy & H). apply bind_Ok in H as (ys & Hys & H).
    injection H as <-. destruct (IH _ Hys) as [-> HF].
    pose proof (Hg _ _ Hy) as <-. split; [reflexivity|].
    constructor; assumption.
Qed.

Lemma mapM_result_of_Forall {A B} (f : A -> result B) (g : A -> B) l :
  Forall (fun x => f x = Ok (g x)) l -> mapM_result f l = Ok (map g l).
Proof.
  induction 1 as [|x l Hx _ IH]; simpl; [reflexivity|].
  rewrite Hx. simpl. rewrite IH. reflexivity.
Qed.

Lemma date_of_Ok row k : py_getitem row "date" = Ok k -> date_of row = k.
Proof. unfold date_of. now intros ->. Qed.

Lemma zip_keyed (l : list value) : zip (map date_of l) l = map keyed l.
Proof. induction l as [|x l IH]; simpl; [reflexivity | now rewrite IH]. Qed.

Lemma fst_keyed (l : list value) : (map keyed l).*1 = map date_of l.
Proof. induction l as [|x l IH]; simpl; [reflexivity | f_equal; exact IH]. Qed.

Lemma snd_keyed (l : list value) : (map keyed l).*2 = l.
Proof. induction l as [|x l IH]; simpl; [reflexivity | f_equal; exact IH]. Qed.

Lemma forallb_Permutation {A} (p : A -> bool) l l' :
  Permutation l l' -> forallb p l = forallb p l'.
Proof.
  induction 1 as [|x l l' _ IH|x y l|l l' l'' _ IH1 _ IH2]; simpl.
  - reflexivity.
  - now rewrite IH.
  - destruct (p x), (p y); reflexivity.
  - congruence.
Qed.

Lemma orderable_ge2 (ks : list value) :
  2 <= length ks -> orderable ks = forallb is_str ks || forallb is_num ks.
Proof.
  destruct ks as [|a [|b ks]]; simpl; intros H; try lia. reflexivity.
Qed.

Lemma forallb_Forall {A} (p : A -> bool) l :
  forallb p l = true -> Forall (fun x => p x = true) l.
Proof.
  induction l as [|x l IH]; simpl; intros H; constructor;
    apply andb_true_iff in H as [Hx Hl]; auto.
Qed.

Lemma forallb_uniform (ks : list value) :
  forallb is_str ks || forallb is_num ks = true -> uniform ks.
Proof.
  intros H. apply orb_true_iff in H as [H|H]; [left|right];
    now apply forallb_Forall.
Qed.

Lemma uniform_same_class (ks : list value) a b :
  uniform ks -> a ∈ ks -> b ∈ ks -> same_class a b.
Proof.
  intros [H|H] Ha Hb; [left|right]; rewrite Forall_forall in H; split;
    apply H; assumption.
Qed.

Lemma uniform_Permutation (ks ks' : list value) :
  Permutation ks ks' -> uniform ks -> uniform ks'.
Proof.
  intros HP [H|H]; [left|right]; now rewrite <- HP.
Qed.

Lemma uniform_tail a (ks : list value) : uniform (a :: ks) -> uniform ks.
Proof.
  intros [H|H]; [left|right]; now apply Forall_inv_tail in H.
Qed.

Lemma insert_by_key_comm {A} (x y : value * A) l :
  same_class x.1 y.1 ->
  date_id x.1 <> date_id y.1 ->
  Forall (fun z => same_class z.1 x.1) l ->
  insert_by_key x (insert_by_key y l) = insert_by_key y (insert_by_key x l).
Proof.
  intros Hxy Hne HF.
  pose proof (key_ltb_flip _ _ Hxy Hne) as Hflip.
  induction l as [|z l IH]; simpl.
  - rewrite Hflip. destruct (key_ltb y.1 x.1); reflexivity.
  - apply Forall_cons in HF as [Hzx HF]. specialize (IH HF).
    pose proof (same_class_trans _ _ _ Hzx Hxy) as Hzy.
    destruct (key_ltb z.1 y.1) eqn:Ezy, (key_ltb z.1 x.1) eqn:Ezx; simpl;
      rewrite ?Ezy, ?Ezx.
    + now rewrite IH.
    + now rewrite (key_ltb_negtrans _ _ _ Hzx Hzy Ezx Ezy).
    + pose proof (key_ltb_negtrans _ _ _ Hzy Hzx Ezy Ezx) as Hyx.
      now rewrite Hyx.
    + rewrite Hflip. destruct (key_ltb y.1 x.1); reflexivity.
Qed.

Lemma insert_by_key_Permutation {A} (x : value * A) l : Permutation (insert_by_key x l) (x :: l).
Proof.
  induction l as [|y l IH]; simpl; [reflexivity|].
  destruct (key_ltb y.1 x.1); [|reflexivity].
  rewrite IH. apply perm_swap.
Qed.

Lemma sort_by_key_Permutation {A} (l : list (value * A)) : Permutation (sort_by_key l) l.
Proof.
  induction l as [|x l IH]; simpl; [reflexivity|].
  rewrite insert_by_key_Permutation. now constructor.
Qed.

Lemma sort_by_key_perm {A} (d d' : list (value * A)) :
  Permutation d d' ->
  uniform d.*1 ->
  NoDup (date_id <$> d.*1) ->
  sort_by_key d = sort_by_key d'.
Proof.
  induction 1 as [|x l l' HP IH|x y l|l l' l'' HP1 IH1 HP2 IH2]; intros Hu Hnd.
  - reflexivity.
  - simpl. rewrite IH; [reflexivity | |].
    + eapply uniform_tail. exact Hu.
    + simpl in Hnd. now apply NoDup_cons in Hnd as [_ Hnd].
  - simpl. simpl in Hu, Hnd.
    apply NoDup_cons in Hnd as [Hny Hnd].
    apply not_elem_of_cons in Hny as [Hne _].
    apply insert_by_key_comm.
    + apply (uniform_same_class _ _ _ Hu); set_solver.
    + exact Hne.
    + apply Forall_forall. intros z Hz.
      rewrite sort_by_key_Permutation in Hz.
      apply (uniform_same_class _ _ _ Hu); [|set_solver].
      rewrite !elem_of_cons. right; right.
      now apply (list_elem_of_fmap_2 fst).
  - rewrite IH1 by assumption. apply IH2.
    + eapply uniform_Permutation; [|exact Hu]. now apply fmap_Permutation.
    + rewrite <- HP1. exact Hnd.
Qed.

Lemma dates_of_keyed (l keys : list value) :
  dates_of l = Ok keys ->
  keys = map date_of l
  /\ Forall (fun row => py_getitem row "date" = Ok (date_of row)) l.
Proof. apply mapM_result_Ok_map. intros x y. apply date_of_Ok. Qed.

Lemma py_sorted_keyed (l : list value) :
  Forall (fun row => py_getitem row "date" = Ok (date_of row)) l ->
  py_sorted (fun row => py_getitem row "date") l
  = if orderable (map date_of l) then Ok (sort_by_key (map keyed l)).*2
    else Raise TypeError.
Proof.
  intros HF. unfold py_sorted.
  rewrite (mapM_result_of_Forall _ date_of _ HF). simpl.
  now rewrite zip_keyed.
Qed.

Lemma py_sorted_Permutation (l l' keys : list value) :
  Permutation l l' ->
  dates_of l = Ok keys ->
  NoDup (date_id <$> keys) ->
  2 <= length l ->
  py_sorted (fun row => py_getitem row "date") l'
  = py_sorted (fun row => py_getitem row "date") l.
Proof.
  intros HP Hk Hnd Hlen.
  destruct (dates_of_keyed _ _ Hk) as [-> HF].
  assert (HF' : Forall (fun row => py_getitem row "date" = Ok (date_of row)) l')
    by now rewrite <- HP.
  rewrite (py_sorted_keyed _ HF), (py_sorted_keyed _ HF').
  assert (HPk : Permutation (map date_of l) (map date_of l'))
    by now apply Permutation_map.
  assert (Ho : orderable (map date_of l') = orderable (map date_of l)).
  { rewrite !orderable_ge2.
    - now rewrite (forallb_Permutation is_str _ _ HPk),
        (forallb_Permutation is_num _ _ HPk).
    - now rewrite length_map.
    - rewrite length_map, <- (Permutation_length HP). exact Hlen. }
  rewrite Ho. destruct (orderable (map date_of l)) eqn:E; [|reflexivity].
  rewrite orderable_ge2 in E by now rewrite length_map.
  apply forallb_uniform in E.
  do 2 f_equal. symmetry. apply sort_by_key_perm.
  - now apply Permutation_map.
  - now rewrite fst_keyed.
  - now rewrite fst_keyed.
Qed.

Lemma py_sorted_is_Permutation (l ls : list value) :
  py_sorted (fun row => py_getitem row "date") l = Ok ls -> Permutation l ls.
Proof.
  unfold py_sorted. intros H. apply bind_Ok in H as (keys & Hk & H).
  destruct (dates_of_keyed _ _ Hk) as [-> _].
  destruct (orderable _); [|discriminate]. injection H as <-.
  rewrite zip_keyed.
  change (map snd (sort_by_key (map keyed l)))
    with ((sort_by_key (map keyed l)).*2).
  rewrite sort_by_key_Permutation. now rewrite snd_keyed.
Qed.

Lemma compute_indicators_Permutation sqrt symbol (l l' : list value) fund keys :
  Permutation l l' ->
  dates_of l = Ok keys ->
  NoDup (date_id <$> keys) ->
  compute_indicators_for_symbol sqrt symbol l' fund
  = compute_indicators_for_symbol sqrt symbol l fund.
Proof.
  intros HP Hk Hnd. unfold compute_indicators_for_symbol.
  rewrite <- (Permutation_length HP).
  destruct (length l <? 2) eqn:E; [reflexivity|].
  apply Nat.ltb_ge in E.
  now rewrite (py_sorted_Permutation _ _ _ HP Hk Hnd E).
Qed.

(** C9: for bars that all carry a date and whose dates are pairwise
    distinct, the indicators computed on any reordering of the bar list are
    those computed on the list itself, and in particular those computed on
    its date-sorted arrangement. *)
Theorem compute_indicators_order_insensitive sqrt symbol (l l' : list value)
    fund keys :
  Permutation l l' ->
  dates_of l = Ok keys ->
  NoDup (date_id <$> keys) ->
  compute_indicators_for_symbol sqrt symbol l' fund
  = compute_indicators_for_symbol sqrt symbol l fund
  /\ (forall ls,
        py_sorted (fun row => py_getitem row "date") l = Ok ls ->
        Permutation l ls
        /\ compute_indicators_for_symbol sqrt symbol l' fund
           = compute_indicators_for_symbol sqrt symbol ls fund).
Proof.
  intros HP Hk Hnd.
  pose proof (compute_indicators_Permutation sqrt symbol _ _ fund _ HP Hk Hnd)
    as Heq.
  split; [exact Heq|].
  intros ls Hs. pose proof (py_sorted_is_Permutation _ _ Hs) as HPs.
  split; [exact HPs|]. rewrite Heq. symmetry.
  exact (compute_indicators_Permutation sqrt symbol _ _ fund _ HPs Hk Hnd).
Qed.

Lemma compute_indicators_order_insensitive_witness :
  compute_indicators_for_symbol sqrt_approx "AAPL"
    [bar "2024-01-01" (VNum 100); bar "2024-01-03" (VNum 121);
     bar "2024-01-02" (VNum 110)] (VDict ∅)
  = compute_indicators_for_symbol sqrt_approx "AAPL"
    [bar "2024-01-03" (VNum 121); bar "2024-01-02" (VNum 110);
     bar "2024-01-01" (VNum 100)] (VDict ∅).
Proof.
  refine (proj1 (compute_indicators_order_insensitive sqrt_approx "AAPL"
            [bar "2024-01-03" (VNum 121); bar "2024-01-02" (VNum 110);
             bar "2024-01-01" (VNum 100)]
            [bar "2024-01-01" (VNum 100); bar "2024-01-03" (VNum 121);
             bar "2024-01-02" (VNum 110)]
            (VDict ∅)
            [VStr "2024-01-03"; VStr "2024-01-02"; VStr "2024-01-01"]
            _ eq_refl _)).
  - apply perm_trans with
      [bar "2024-01-03" (VNum 121); bar "2024-01-01" (VNum 100);
       bar "2024-01-02" (VNum 110)].
    + apply perm_skip, perm_swap.
    + apply perm_swap.
  - simpl. repeat (apply NoDup_cons_2; [rewrite ?elem_of_cons, elem_of_nil;
      intros H; repeat (destruct H as [H|H]; try discriminate H); exact H|]).
    apply NoDup_nil_2.
Defined.

(** ** The engine on the heap: the arguments are only read *)

Create HintDb heap_frame.

Lemma extends_ret {A} (a : A) : extends (mret a : Heap.prog A).
Proof. intros h. reflexivity. Qed.

Lemma extends_raise {A} (e : exn) : extends (Heap.raise e : Heap.prog A).
Proof. intros h. reflexivity. Qed.

Lemma extends_lift {A} (r : result A) : extends (Heap.lift r).
Proof. intros h. reflexivity. Qed.

Lemma extends_load l : extends (Heap.load l).
Proof. intros h. reflexivity. Qed.

Lemma extends_alloc o : extends (Heap.alloc o).
Proof.
  intros h. unfold Heap.alloc. simpl. apply insert_subseteq.
  apply not_elem_of_dom. apply is_fresh.
Qed.

Lemma extends_bind {A B} (m : Heap.prog A) (f : A -> Heap.prog B) :
  extends m -> (forall a, extends (f a)) -> extends (m ≫= f).
Proof.
  intros Hm Hf h. unfold mbind, Heap.prog_bind.
  specialize (Hm h). destruct (m h) as [[a|e] h1]; simpl in *.
  - etrans; [exact Hm | apply Hf].
  - exact Hm.
Qed.

#[local] Hint Resolve extends_ret extends_raise extends_lift extends_load
  extends_alloc : heap_frame.

Lemma extends_mapM {A B} (f : A -> Heap.prog B) l :
  (forall x, extends (f x)) -> extends (Heap.mapM_prog f l).
Proof.
  intros Hf. induction l as [|x l IH]; simpl; [apply extends_ret|].
  apply extends_bind; [apply Hf|]. intros y.
  apply extends_bind; [exact IH|]. intros ys. apply extends_ret.
Qed.

Lemma extends_len l : extends (Heap.len l).
Proof.
  apply extends_bind; [apply extends_load|].
  intros [[items|d]|]; auto with heap_frame.
Qed.

Lemma extends_getitem row k : extends (Heap.getitem row k).
Proof.
  apply extends_bind; [apply extends_load|].
  intros [[items|d]|]; auto with heap_frame.
Qed.

Lemma extends_get record k dflt : extends (Heap.get record k dflt).
Proof.
  apply extends_bind; [apply extends_load|].
  intros [[items|d]|]; auto with heap_frame.
Qed.

Lemma extends_index_from_end k l : extends (Heap.index_from_end k l).
Proof.
  apply extends_bind; [apply extends_load|].
  intros [[items|d]|]; auto with heap_frame.
Qed.

Lemma extends_sorted key l :
  (forall row, extends (key row)) -> extends (Heap.sorted key l).
Proof.
  intros Hkey. apply extends_bind; [apply extends_load|].
  intros [[items|d]|]; auto with heap_frame.
  apply extends_bind; [now apply extends_mapM|].
  intros keys. destruct (orderable keys); auto with heap_frame.
Qed.

Lemma extends_compute_daily_returns prices :
  extends (Heap.compute_daily_returns prices).
Proof.
  apply extends_bind; [apply extends_load|].
  intros [[items|d]|]; auto with heap_frame.
  apply extends_bind; [|auto with heap_frame].
  apply extends_mapM. intros row. apply extends_getitem.
Qed.

#[local] Hint Resolve extends_len extends_getitem extends_get
  extends_index_from_end extends_compute_daily_returns : heap_frame.

Lemma extends_compute_indicators sqrt symbol daily_prices fundamentals :
  extends (Heap.compute_indicators_for_symbol sqrt symbol daily_prices fundamentals).
Proof.
  unfold Heap.compute_indicators_for_symbol.
  apply extends_bind; [apply extends_len|]. intros n.
  destruct (n <? 2); [apply extends_ret|].
  apply extends_bind.
  { apply extends_sorted. intros row. apply extends_getitem. }
  intros daily_prices_sorted.
  repeat (apply extends_bind; [solve [auto with heap_frame] | intros ?]).
  apply extends_ret.
Qed.

(** The in-place sort does overwrite its argument; [sorted] allocates. *)
Lemma list_sort_overwrites :
  (Heap.list_sort (fun row => Heap.getitem row "date") 2 sample_heap).2 !! 2
  = Some (Heap.OList [1; 0]).
Proof. vm_compute. reflexivity. Qed.

Lemma sorted_allocates :
  Heap.sorted (fun row => Heap.getitem row "date") 2 sample_heap
  = (Ok 4, <[4 := Heap.OList [1; 0]]> sample_heap).
Proof. vm_compute. reflexivity. Qed.

(** C10: every object of the heap the function is called on, the
    [daily_prices] list with its element order, each of its rows and the
    fundamentals record among them, is in the final heap with unchanged
    contents, whether the function returns or raises; the sorted list is a
    new object. *)
Theorem arguments_unchanged sqrt symbol (daily_prices fundamentals : nat)
    (h : gmap nat Heap.obj) :
  forall l o, h !! l = Some o ->
    (Heap.compute_indicators_for_symbol sqrt symbol daily_prices fundamentals h).2
      !! l = Some o.
Proof.
  intros l o Hl. eapply lookup_weaken; [exact Hl|].
  apply extends_compute_indicators.
Qed.

Lemma arguments_unchanged_witness :
  (Heap.compute_indicators_for_symbol sqrt_approx "AAPL" 2 3 sample_heap).2 !! 2
  = Some (Heap.OList [0; 1]).
Proof.
  apply (arguments_unchanged sqrt_approx "AAPL" 2 3 sample_heap 2).
  reflexivity.
Defined.

(** ** The heap engine computes what the pure engine computes *)

Lemma run_bind {A B} (m : Heap.prog A) (f : A -> Heap.prog B) h :
  (m ≫= f) h
  = match m h with
    | (Ok a, h') => f a h'
    | (Raise e, h') => (Raise e, h')
    end.
Proof. reflexivity. Qed.

Lemma sim_fst {A} (m : Heap.prog A) h r : sim eq m h r -> (m h).1 = r.
Proof.
  unfold sim. destruct r as [b|e].
  - intros (a & -> & ->). reflexivity.
  - intros ->. reflexivity.
Qed.

Lemma sim_bind {A A' B B'} (R : A -> A' -> Prop) (S : B -> B' -> Prop)
    (m : Heap.prog A) (f : A -> Heap.prog B) h
    (r : result A') (g : A' -> result B') :
  sim R m h r ->
  (forall a a', R a a' -> sim S (f a) h (g a')) ->
  sim S (m ≫= f) h (r ≫= g).
Proof.
  intros Hm Hf. destruct r as [a'|e]; simpl in Hm.
  - destruct Hm as (a & Hm & HR). specialize (Hf a a' HR).
    change (Ok a' ≫= g) with (g a'). unfold sim in *.
    destruct (g a') as [b'|e].
    + destruct Hf as (b & Hb & HS). exists b. split; [|exact HS].
      rewrite run_bind, Hm. exact Hb.
    + rewrite run_bind, Hm. exact Hf.
  - change (Raise e ≫= g) with (@Raise B' e). unfold sim.
    rewrite run_bind, Hm. reflexivity.
Qed.

Lemma sim_lift {A} (r : result A) h : sim eq (Heap.lift r) h r.
Proof. destruct r as [a|e]; simpl; eauto. Qed.

Lemma sim_ret {A B} (R : A -> B -> Prop) a b h :
  R a b -> sim R (mret a : Heap.prog A) h (Ok b).
Proof. intros HR. exists a. split; [reflexivity | exact HR]. Qed.

Lemma sim_getitem h l r k :
  row_at h l r -> sim eq (Heap.getitem l k) h (py_getitem r k).
Proof.
  intros (d & Hl & ->).
  assert (Hrun : Heap.getitem l k h = (py_getitem (VDict d) k, h)).
  { unfold Heap.getitem. rewrite run_bind. simpl. rewrite Hl. reflexivity. }
  unfold sim. destruct (py_getitem (VDict d) k) as [v|e]; eauto.
Qed.

Lemma sim_get h f df k dflt :
  h !! f = Some (Heap.ODict df) ->
  sim eq (Heap.get f k dflt) h (py_get (VDict df) k dflt).
Proof.
  intros Hf.
  assert (Hrun : Heap.get f k dflt h = (py_get (VDict df) k dflt, h)).
  { unfold Heap.get. rewrite run_bind. simpl. rewrite Hf. reflexivity. }
  unfold sim. destruct (py_get (VDict df) k dflt) as [v|e]; eauto.
Qed.

Lemma sim_mapM_getitem h items rows k :
  Forall2 (row_at h) items rows ->
  sim eq (Heap.mapM_prog (fun row => Heap.getitem row k) items) h
    (mapM_result (fun row => py_getitem row k) rows).
Proof.
  induction 1 as [|l r items rows Hr _ IH]; simpl.
  - eauto.
  - eapply sim_bind; [now apply sim_getitem|]. intros v ? <-.
    eapply sim_bind; [exact IH|]. intros vs ? <-.
    now apply sim_ret.
Qed.

Lemma sim_index_from_end h l items rows k :
  h !! l = Some (Heap.OList items) ->
  Forall2 (row_at h) items rows ->
  sim (row_at h) (Heap.index_from_end k l) h (nth_from_end k rows).
Proof.
  intros Hl HF.
  assert (Hrun : Heap.index_from_end k l h = (nth_from_end k items, h)).
  { unfold Heap.index_from_end. rewrite run_bind. simpl. rewrite Hl.
    reflexivity. }
  pose proof (Forall2_length _ _ _ HF) as Hlen.
  unfold sim, nth_from_end in *. rewrite <- Hlen.
  destruct (length items <? k); [exact Hrun|].
  destruct (items !! (length items - k)) as [x|] eqn:E.
  - destruct (Forall2_lookup_l _ _ _ _ _ HF E) as (y & -> & HR). eauto.
  - apply lookup_ge_None in E.
    rewrite (lookup_ge_None_2 rows) by (rewrite <- Hlen; exact E).
    exact Hrun.
Qed.

Lemma sim_compute_daily_returns h l items rows :
  h !! l = Some (Heap.OList items) ->
  Forall2 (row_at h) items rows ->
  sim eq (Heap.compute_daily_returns l) h (compute_daily_returns rows).
Proof.
  intros Hl HF.
  assert (Hrun : Heap.compute_daily_returns l h
                 = (closes ← Heap.mapM_prog (fun row => Heap.getitem row "close") items;
                    Heap.lift (returns_of_closes closes)) h).
  { unfold Heap.compute_daily_returns. rewrite run_bind. simpl. rewrite Hl.
    reflexivity. }
  assert (Hsim : sim eq
            (closes ← Heap.mapM_prog (fun row => Heap.getitem row "close") items;
             Heap.lift (returns_of_closes closes)) h
            (compute_daily_returns rows)).
  { unfold compute_daily_returns.
    eapply sim_bind; [now apply sim_mapM_getitem|]. intros closes ? <-.
    apply sim_lift. }
  unfold sim in *. rewrite Hrun. exact Hsim.
Qed.

Lemma row_at_weaken h h' l r : h ⊆ h' -> row_at h l r -> row_at h' l r.
Proof.
  intros Hsub (d & Hl & ->). exists d. split; [|reflexivity].
  eapply lookup_weaken; eassumption.
Qed.

Lemma keyed_rel_insert {A B} (R : A -> B -> Prop) x y l l' :
  keyed_rel R x y ->
  Forall2 (keyed_rel R) l l' ->
  Forall2 (keyed_rel R) (insert_by_key x l) (insert_by_key y l').
Proof.
  intros Hxy. induction 1 as [|a b l l' Hab HF IH]; simpl.
  - constructor; [exact Hxy | constructor].
  - pose proof Hxy as [Hk HR]. pose proof Hab as [Hk' HR'].
    rewrite <- Hk, <- Hk'.
    destruct (key_ltb a.1 x.1).
    + constructor; [exact Hab | exact IH].
    + constructor; [exact Hxy|]. constructor; [exact Hab | exact HF].
Qed.

Lemma keyed_rel_sort {A B} (R : A -> B -> Prop) l l' :
  Forall2 (keyed_rel R) l l' ->
  Forall2 (keyed_rel R) (sort_by_key l) (sort_by_key l').
Proof.
  induction 1 as [|a b l l' Hab _ IH]; simpl; [constructor|].
  now apply keyed_rel_insert.
Qed.

Lemma keyed_rel_zip {A B} (R : A -> B -> Prop) keys l l' :
  Forall2 R l l' -> Forall2 (keyed_rel R) (zip keys l) (zip keys l').
Proof.
  intros HF. revert keys. induction HF as [|a b l l' Hab _ IH];
    intros [|k keys]; simpl; try constructor.
  - split; [reflexivity | exact Hab].
  - apply IH.
Qed.

Lemma keyed_rel_snd {A B} (R : A -> B -> Prop) (l : list (value * A))
    (l' : list (value * B)) :
  Forall2 (keyed_rel R) l l' -> Forall2 R l.*2 l'.*2.
Proof.
  induction 1 as [|a b l l' [_ Hab] _ IH]; simpl; constructor; assumption.
Qed.

Lemma result_bind_Ok {A B} (a : A) (g : A -> result B) : (Ok a ≫= g) = g a.
Proof. reflexivity. Qed.

Lemma result_bind_Raise {A B} (e : exn) (g : A -> result B) :
  (Raise e ≫= g) = Raise e.
Proof. reflexivity. Qed.

Lemma alloc_subseteq (h : gmap nat Heap.obj) o : h ⊆ <[fresh (dom h) := o]> h.
Proof. apply insert_subseteq, not_elem_of_dom, is_fresh. Qed.

Lemma sorted_refines h p items rows :
  h !! p = Some (Heap.OList items) ->
  Forall2 (row_at h) items rows ->
  match py_sorted (fun row => py_getitem row "date") rows with
  | Ok rows' =>
      exists items',
        Heap.sorted (fun row => Heap.getitem row "date") p h
        = (Ok (fresh (dom h)), <[fresh (dom h) := Heap.OList items']> h)
        /\ Forall2 (row_at h) items' rows'
  | Raise e =>
      Heap.sorted (fun row => Heap.getitem row "date") p h = (Raise e, h)
  end.
Proof.
  intros Hp HF. unfold Heap.sorted, py_sorted.
  rewrite run_bind. simpl. rewrite Hp.
  pose proof (sim_mapM_getitem h items rows "date" HF) as Hk. unfold sim in Hk.
  destruct (mapM_result _ rows) as [keys|e].
  - destruct Hk as (keys' & Hrun & <-). rewrite run_bind, Hrun.
    rewrite result_bind_Ok. destruct (orderable keys').
    + eexists. split; [reflexivity|].
      apply keyed_rel_snd, keyed_rel_sort, keyed_rel_zip. exact HF.
    + reflexivity.
  - rewrite run_bind, Hk. reflexivity.
Qed.

(** On a heap that holds the bars as row objects and the fundamentals as a
    record, the heap engine returns, or raises, what the pure engine does on
    the bars and the record. *)
Lemma heap_engine_refines sqrt symbol p f h items rows df :
  h !! p = Some (Heap.OList items) ->
  Forall2 (row_at h) items rows ->
  h !! f = Some (Heap.ODict df) ->
  (Heap.compute_indicators_for_symbol sqrt symbol p f h).1
  = compute_indicators_for_symbol sqrt symbol rows (VDict df).
Proof.
  intros Hp HF Hf.
  unfold Heap.compute_indicators_for_symbol, compute_indicators_for_symbol.
  assert (Hlen : Heap.len p h = (Ok (length items), h)).
  { unfold Heap.len. rewrite run_bind. simpl. rewrite Hp. reflexivity. }
  rewrite run_bind, Hlen. cbv beta iota.
  rewrite (Forall2_length _ _ _ HF).
  destruct (length rows <? 2); [reflexivity|].
  rewrite run_bind.
  pose proof (sorted_refines h p items rows Hp HF) as Hs.
  destruct (py_sorted _ rows) as [rows'|e].
  - destruct Hs as (items' & Hrun & HF'). rewrite Hrun. cbv beta iota.
    rewrite result_bind_Ok.
    pose proof (alloc_subseteq h (Heap.OList items')) as Hsub.
    set (l1 := fresh (dom h)) in *.
    set (h1 := <[l1 := Heap.OList items']> h) in *.
    assert (Hl1 : h1 !! l1 = Some (Heap.OList items'))
      by apply lookup_insert_eq.
    assert (HF1 : Forall2 (row_at h1) items' rows').
    { eapply Forall2_impl; [exact HF'|]. intros l r.
      now apply row_at_weaken. }
    assert (Hf1 : h1 !! f = Some (Heap.ODict df))
      by (eapply lookup_weaken; eassumption).
    apply sim_fst.
    eapply sim_bind; [now apply (sim_index_from_end h1 l1 items' rows')|].
    intros last last' Hlast.
    eapply sim_bind; [now apply (sim_index_from_end h1 l1 items' rows')|].
    intros prev prev' Hprev.
    eapply sim_bind; [now apply sim_getitem|]. intros last_close ? <-.
    eapply sim_bind; [now apply sim_getitem|]. intros prev_close ? <-.
    eapply sim_bind; [apply sim_lift|]. intros close_return ? <-.
    eapply sim_bind; [now apply sim_get|]. intros trading_snapshot ? <-.
    do 9 (eapply sim_bind; [apply sim_lift|]; intros ? ? <-).
    eapply sim_bind; [now apply (sim_compute_daily_returns h1 l1 items' rows')|].
    intros returns ? <-.
    eapply sim_bind; [apply sim_lift|]. intros vol ? <-.
    now apply sim_ret.
  - rewrite Hs. rewrite result_bind_Raise. reflexivity.
Qed.

(** * Further properties of the engine *)

(** ** The one-day return *)

(** X1: [close_return_1d] is [last/prev - 1] for numeric closes with a
    non-zero previous close; it is undefined, whatever the last close is,
    when the previous close is null or zero; and a non-numeric last close
    over a usable previous close raises [TypeError]. *)
Theorem close_return_1d_cases (last_close prev_close : value) :
  (forall a b, last_close = VNum a -> prev_close = VNum b -> ~ (b == 0)%Q ->
     close_return_1d last_close prev_close = Ok (Some (a / b - 1)%Q))
  /\ (forall p, prev_close = opt_value p -> absent_or_zero p ->
     close_return_1d last_close prev_close = Ok None)
  /\ (forall b, prev_close = VNum b -> ~ (b == 0)%Q ->
     is_num last_close = false ->
     close_return_1d last_close prev_close = Raise TypeError).
Proof.
  unfold close_return_1d. split; [|split].
  - intros a b -> -> Hb. simpl. now rewrite (Qeq_bool_nonzero _ Hb).
  - intros p -> Hp. now rewrite (truthy_absent_or_zero _ Hp).
  - intros b -> Hb Hl. simpl. rewrite (Qeq_bool_nonzero _ Hb). simpl.
    destruct last_close; try reflexivity. discriminate Hl.
Qed.

Lemma close_return_1d_cases_witness :
  close_return_1d (VNum 110) (VNum 100) = Ok (Some (110 / 100 - 1)%Q)
  /\ close_return_1d (VStr "n/a") VNone = Ok None
  /\ close_return_1d VNone (VNum 100) = Raise TypeError.
Proof.
  split; [|split].
  - apply (proj1 (close_return_1d_cases (VNum 110) (VNum 100)) 110%Q 100%Q
             eq_refl eq_refl).
    intros E; discriminate E.
  - apply (proj1 (proj2 (close_return_1d_cases (VStr "n/a") VNone)) None
             eq_refl I).
  - apply (proj2 (proj2 (close_return_1d_cases VNone (VNum 100))) 100%Q
             eq_refl); [intros E; discriminate E | reflexivity].
Defined.

(** ** The return calculator *)

Lemma returns_of_pairs_undefined (closes : list value) :
  returns_defined closes = false -> returns_of_pairs closes = Raise TypeError.
Proof.
  induction closes as [|prev [|curr rest] IH]; intros Hd; try discriminate Hd.
  change (returns_defined (prev :: curr :: rest))
    with (pair_divides prev curr && returns_defined (curr :: rest)) in Hd.
  change (returns_of_pairs (prev :: curr :: rest))
    with (if unusable prev then returns_of_pairs (curr :: rest)
          else q ← py_truediv curr prev;
               rs ← returns_of_pairs (curr :: rest);
               Ok ((q - 1)%Q :: rs)).
  remember (returns_defined (curr :: rest)) as rd eqn:Hrd.
  remember (returns_of_pairs (curr :: rest)) as rp eqn:Hrp.
  clear Hrd Hrp.
  unfold pair_divides in Hd. destruct (unusable prev) eqn:Hu.
  - simpl in Hd. now apply IH.
  - destruct prev as [|p| |], curr as [|c| |]; try reflexivity.
    simpl in Hd. unfold unusable in Hu. simpl in Hu.
    unfold py_truediv. rewrite Hu. rewrite (IH Hd). reflexivity.
Qed.

Lemma closes_of_error (prices : list value) e :
  closes_of prices = Raise e -> e = KeyError \/ e = TypeError.
Proof.
  unfold closes_of. induction prices as [|row prices IH]; simpl; [discriminate|].
  intros H. destruct (py_getitem row "close") as [c|e'] eqn:Hrow; simpl in H.
  - destruct (mapM_result _ prices) as [cs|e'']; simpl in H; [discriminate|].
    injection H as ->. now apply IH.
  - injection H as ->. destruct row as [| | |d]; simpl in Hrow;
      try (injection Hrow as <-; now right).
    destruct (d !! "close"); [discriminate|]. injection Hrow as <-. now left.
Qed.

(** X2: a bar whose close cannot be read makes the calculator raise the
    exception of that lookup, before any return is computed; and the
    calculator never raises [ZeroDivisionError]: a denominator equal to
    zero, however the number is written, is skipped and never divided
    by. *)
Theorem compute_daily_returns_raises (prices : list value) :
  (forall e, closes_of prices = Raise e -> compute_daily_returns prices = Raise e)
  /\ compute_daily_returns prices <> Raise ZeroDivisionError.
Proof.
  split.
  - unfold compute_daily_returns, closes_of. intros e ->. reflexivity.
  - pose proof (closes_of_error prices) as Hk.
    unfold compute_daily_returns, closes_of in *.
    destruct (mapM_result _ prices) as [closes|e'].
    + rewrite result_bind_Ok.
      destruct (returns_defined closes) eqn:Hd.
      * destruct (returns_of_closes_defined _ Hd) as (rs & -> & _).
        discriminate.
      * rewrite returns_of_closes_pairs, (returns_of_pairs_undefined _ Hd).
        discriminate.
    + rewrite result_bind_Raise. intros H. injection H as ->.
      destruct (Hk _ eq_refl) as [H|H]; discriminate H.
Qed.

Lemma compute_daily_returns_raises_witness :
  compute_daily_returns
    [bar "2024-01-01" (VNum 100); bar_without_close "2024-01-02"]
  = Raise KeyError.
Proof.
  apply (proj1 (compute_daily_returns_raises
           [bar "2024-01-01" (VNum 100); bar_without_close "2024-01-02"])).
  reflexivity.
Defined.

Lemma returns_of_pairs_cons2 prev curr rest :
  returns_of_pairs (prev :: curr :: rest)
  = if unusable prev then returns_of_pairs (curr :: rest)
    else q ← py_truediv curr prev;
         rs ← returns_of_pairs (curr :: rest);
         Ok ((q - 1)%Q :: rs).
Proof. reflexivity. Qed.

Lemma unusable_nonzero q : ~ (q == 0)%Q -> unusable (VNum q) = false.
Proof. intros Hq. unfold unusable. simpl. now apply Qeq_bool_nonzero. Qed.

Lemma returns_telescope (qs : list Q) :
  Forall (fun q => ~ (q == 0)%Q) qs ->
  exists rs,
    returns_of_pairs (VNum <$> qs) = Ok rs
    /\ length rs = length qs - 1
    /\ (Qprod (Qplus 1 <$> rs) * default 0 (head qs) == default 0 (last qs))%Q.
Proof.
  induction qs as [|q0 qs IH]; intros HF.
  - exists []. split; [reflexivity|]. split; [reflexivity|]. simpl. lra.
  - apply Forall_cons in HF as [Hq0 HF]. specialize (IH HF).
    destruct qs as [|q1 rest].
    + exists []. split; [reflexivity|]. split; [reflexivity|]. simpl. lra.
    + destruct IH as (rs & Hrs & Hlen & Hprod).
      apply Forall_cons in HF as [Hq1 _].
      exists ((q1 / q0 - 1)%Q :: rs).
      change (VNum <$> q0 :: q1 :: rest)
        with (VNum q0 :: VNum q1 :: (VNum <$> rest)).
      change (VNum <$> q1 :: rest) with (VNum q1 :: (VNum <$> rest)) in Hrs.
      rewrite returns_of_pairs_cons2, (unusable_nonzero _ Hq0).
      rewrite (py_truediv_nonzero _ _ Hq0), result_bind_Ok, Hrs.
      split; [reflexivity|]. split; [simpl in *; lia|].
      rewrite last_cons_cons.
      change (Qprod (Qplus 1 <$> (q1 / q0 - 1)%Q :: rs))
        with ((1 + (q1 / q0 - 1)) * Qprod (Qplus 1 <$> rs))%Q.
      simpl head in *. simpl default in *.
      rewrite <- Hprod. field. exact Hq0.
Qed.

(** X3: in exact arithmetic (closes and returns read as rationals,
    without the rounding of floats): when every close is a number other
    than zero, the calculator returns one return per adjacent pair, and
    compounding them recovers the whole move: the product of the [1 + r]
    times the first close is the last close. *)
Theorem compute_daily_returns_compound (prices : list value) (qs : list Q) :
  closes_of prices = Ok (VNum <$> qs) ->
  Forall (fun q => ~ (q == 0)%Q) qs ->
  exists rs,
    compute_daily_returns prices = Ok rs
    /\ length rs = length prices - 1
    /\ (Qprod (Qplus 1 <$> rs) * default 0 (head qs) == default 0 (last qs))%Q.
Proof.
  intros Hc HF. unfold compute_daily_returns. unfold closes_of in Hc.
  rewrite Hc, result_bind_Ok, returns_of_closes_pairs.
  destruct (returns_telescope qs HF) as (rs & Hrs & Hlen & Hprod).
  apply mapM_result_length in Hc. rewrite length_fmap in Hc.
  exists rs. split; [exact Hrs|]. split; [|exact Hprod].
  rewrite <- Hc. exact Hlen.
Qed.

Lemma compute_daily_returns_compound_witness :
  exists rs,
    compute_daily_returns
      [bar "2024-01-01" (VNum 100); bar "2024-01-02" (VNum 110);
       bar "2024-01-03" (VNum 99)] = Ok rs
    /\ (Qprod (Qplus 1 <$> rs) * 100 == 99)%Q.
Proof.
  destruct (compute_daily_returns_compound
              [bar "2024-01-01" (VNum 100); bar "2024-01-02" (VNum 110);
               bar "2024-01-03" (VNum 99)] [100; 110; 99]%Q eq_refl)
    as (rs & Hrs & _ & Hprod).
  - repeat (constructor; [intros E; discriminate E|]). constructor.
  - exists rs. split; [exact Hrs | exact Hprod].
Defined.

Lemma unusable_scale c v : ~ (c == 0)%Q -> unusable (scale c v) = unusable v.
Proof.
  intros Hc. destruct v as [|q| |]; try reflexivity.
  unfold unusable. simpl.
  destruct (Qeq_bool q 0) eqn:E.
  - apply Qeq_bool_iff in E. apply Qeq_bool_iff. rewrite E. ring.
  - apply Qeq_bool_neq in E. apply Qeq_bool_nonzero. intros H. apply E.
    apply Qmult_integral in H as [H|H]; [contradiction | exact H].
Qed.

Lemma returns_of_pairs_scale c (closes : list value) :
  ~ (c == 0)%Q ->
  same_returns (returns_of_pairs closes) (returns_of_pairs (scale c <$> closes)).
Proof.
  intros Hc. induction closes as [|prev [|curr rest] IH].
  - constructor.
  - constructor.
  - change (scale c <$> prev :: curr :: rest)
      with (scale c prev :: scale c curr :: (scale c <$> rest)).
    change (scale c <$> curr :: rest)
      with (scale c curr :: (scale c <$> rest)) in IH.
    rewrite !returns_of_pairs_cons2, (unusable_scale _ _ Hc).
    remember (returns_of_pairs (curr :: rest)) as r eqn:Hr.
    remember (returns_of_pairs (scale c curr :: (scale c <$> rest))) as r'
      eqn:Hr'.
    clear Hr Hr'. destruct (unusable prev) eqn:Hu; [exact IH|].
    destruct prev as [|p| |], curr as [|x| |]; simpl; try reflexivity.
    unfold unusable in Hu. simpl in Hu. rewrite Hu.
    assert (Hp : ~ (p == 0)%Q) by now apply Qeq_bool_neq.
    assert (Hcp : Qeq_bool (c * p) 0 = false).
    { apply Qeq_bool_nonzero. intros H.
      apply Qmult_integral in H as [H|H]; contradiction. }
    rewrite Hcp. simpl.
    destruct r as [rs|e], r' as [rs'|e']; simpl in *; try exact IH.
    constructor; [|exact IH]. field. split; assumption.
Qed.

(** X4: in exact arithmetic (closes and returns read as rationals,
    without the rounding, overflow or underflow of floats), the returns do
    not depend on the unit of the closes: multiplying every numeric close
    by the same non-zero factor gives returns of equal value, and the same
    exception when the calculator raises. *)
Theorem compute_daily_returns_scale c (prices scaled closes : list value) :
  ~ (c == 0)%Q ->
  closes_of prices = Ok closes ->
  closes_of scaled = Ok (scale c <$> closes) ->
  same_returns (compute_daily_returns prices) (compute_daily_returns scaled).
Proof.
  intros Hc Hp Hs. unfold compute_daily_returns. unfold closes_of in Hp, Hs.
  rewrite Hp, Hs, !result_bind_Ok, !returns_of_closes_pairs.
  now apply returns_of_pairs_scale.
Qed.

Lemma compute_daily_returns_scale_witness :
  same_returns
    (compute_daily_returns
       [bar "2024-01-01" (VNum 100); bar "2024-01-02" (VNum 110)])
    (compute_daily_returns
       [bar "2024-01-01" (VNum (2 * 100)); bar "2024-01-02" (VNum (2 * 110))]).
Proof.
  apply (compute_daily_returns_scale 2
           [bar "2024-01-01" (VNum 100); bar "2024-01-02" (VNum 110)]
           [bar "2024-01-01" (VNum (2 * 100)); bar "2024-01-02" (VNum (2 * 110))]
           [VNum 100; VNum 110]).
  - intros E; discriminate E.
  - reflexivity.
  - reflexivity.
Defined.

(** ** The volatility estimate *)

Lemma Qsquare_nonneg (a : Q) : (0 <= a * a)%Q.
Proof.
  destruct (Qlt_le_dec a 0) as [Hneg|Hpos].
  - assert (E : (a * a == (- a) * (- a))%Q) by ring.
    rewrite E. apply Qmult_le_0_compat; lra.
  - now apply Qmult_le_0_compat.
Qed.

Lemma Qsum_squares_nonneg (m : Q) (l : list Q) :
  (0 <= Qsum (map (fun x => (x - m) * (x - m)) l))%Q.
Proof.
  induction l as [|x l IH]; simpl; [lra|].
  pose proof (Qsquare_nonneg (x - m)). lra.
Qed.

Lemma Qlen_gt (l : list Q) : 2 <= length l -> (0 < Qlen l - 1)%Q.
Proof.
  intros H. unfold Qlen.
  assert (1 < inject_Z (Z.of_nat (length l)))%Q; [|lra].
  change 1%Q with (inject_Z 1). rewrite <- Zlt_Qlt. lia.
Qed.

Lemma Qsum_const (c : Q) (l : list Q) :
  Forall (fun x => (x == c)%Q) l -> (Qsum l == Qlen l * c)%Q.
Proof.
  unfold Qlen. induction 1 as [|x l Hx _ IH].
  - simpl. ring.
  - assert (E : (inject_Z (Z.of_nat (length (x :: l)))
                 == inject_Z (Z.of_nat (length l)) + 1)%Q).
    { change 1%Q with (inject_Z 1). rewrite <- inject_Z_plus.
      replace (Z.of_nat (length (x :: l))) with (Z.of_nat (length l) + 1)%Z
        by (simpl length; lia).
      reflexivity. }
    rewrite E. change (Qsum (x :: l)) with (x + Qsum l)%Q.
    rewrite IH, Hx. ring.
Qed.

Lemma Qsum_squares_const (m : Q) (l : list Q) :
  Forall (fun x => (x == m)%Q) l ->
  (Qsum (map (fun x => (x - m) * (x - m)) l) == 0)%Q.
Proof.
  induction 1 as [|x l Hx _ IH]; simpl; [reflexivity|].
  rewrite IH, Hx. ring.
Qed.

(** X5: on a window of at least two returns the variance handed to the
    square root is never negative, and it is zero when all the returns of
    the window are equal. *)
Theorem sample_variance_nonneg (window : list Q) :
  2 <= length window ->
  (0 <= sample_variance window)%Q
  /\ (forall c, Forall (fun x => (x == c)%Q) window ->
        (sample_variance window == 0)%Q).
Proof.
  intros Hlen. pose proof (Qlen_gt window Hlen) as Hpos.
  unfold sample_variance. split.
  - unfold Qdiv. apply Qmult_le_0_compat; [apply Qsum_squares_nonneg|].
    apply Qinv_le_0_compat. lra.
  - intros c Hc.
    assert (Hmean : (mean window == c)%Q).
    { unfold mean. rewrite (Qsum_const c window Hc). field. lra. }
    rewrite Qsum_squares_const; [unfold Qdiv; ring|].
    eapply Forall_impl; [exact Hc|]. intros x Hx. simpl. now rewrite Hmean.
Qed.

Lemma sample_variance_nonneg_witness :
  (0 <= sample_variance [1 # 100; -2 # 100; 3 # 100])%Q.
Proof.
  apply (sample_variance_nonneg [1 # 100; -2 # 100; 3 # 100]). simpl. lia.
Defined.

(** X6: with ten or more returns, [vol_10d] is the deviation of the last
    ten alone: returns older than the window do not influence it. *)
Theorem vol_10d_last_ten (sqrt : Q -> Q) (older window : list Q) :
  length window = 10 ->
  vol_10d sqrt (older ++ window) = Ok (Some (sqrt (sample_variance window)))
  /\ forall older', vol_10d sqrt (older' ++ window) = vol_10d sqrt (older ++ window).
Proof.
  intros Hw.
  assert (H : forall old, vol_10d sqrt (old ++ window)
                          = Ok (Some (sqrt (sample_variance window)))).
  { intros old. unfold vol_10d, stdev, last_n.
    rewrite length_app, Hw.
    replace (length old + 10 - 10) with (length old) by lia.
    rewrite drop_app_length, Hw.
    replace (2 <=? length old + 10) with true
      by (symmetry; apply Nat.leb_le; lia).
    reflexivity. }
  split; [apply H|]. intros older'. now rewrite !H.
Qed.

Lemma vol_10d_last_ten_witness :
  vol_10d sqrt_approx ([5; 7] ++ [1; 2; 3; 4; 5; 6; 7; 8; 9; 10])%Q
  = vol_10d sqrt_approx ([] ++ [1; 2; 3; 4; 5; 6; 7; 8; 9; 10])%Q.
Proof.
  apply (proj2 (vol_10d_last_ten sqrt_approx []
                  [1; 2; 3; 4; 5; 6; 7; 8; 9; 10]%Q eq_refl)).
Defined.

(** ** The composite score *)

Lemma py_min_l a c : (a <= c)%Q -> (py_min a c == a)%Q.
Proof.
  intros H. unfold py_min. destruct (Qltb c a) eqn:E; [|reflexivity].
  apply Qltb_true in E. lra.
Qed.

Lemma py_min_r a c : (c <= a)%Q -> (py_min a c == c)%Q.
Proof.
  intros H. unfold py_min. destruct (Qltb c a) eqn:E; [reflexivity|].
  apply Qltb_false in E. lra.
Qed.

Lemma py_max_l a c : (c <= a)%Q -> (py_max a c == a)%Q.
Proof.
  intros H. unfold py_max. destruct (Qltb a c) eqn:E; [|reflexivity].
  apply Qltb_true in E. lra.
Qed.

Lemma py_max_r a c : (a <= c)%Q -> (py_max a c == c)%Q.
Proof.
  intros H. unfold py_max. destruct (Qltb a c) eqn:E; [reflexivity|].
  apply Qltb_false in E. lra.
Qed.

Lemma py_min_mono a b c : (a <= b)%Q -> (py_min a c <= py_min b c)%Q.
Proof.
  intros H. destruct (Qlt_le_dec c a) as [Hca|Hac].
  - rewrite (py_min_r a c), (py_min_r b c); lra.
  - rewrite (py_min_l a c) by exact Hac.
    destruct (Qlt_le_dec c b) as [Hcb|Hbc].
    + rewrite (py_min_r b c); lra.
    + rewrite (py_min_l b c); lra.
Qed.

Lemma py_max_mono a b c : (a <= b)%Q -> (py_max a c <= py_max b c)%Q.
Proof.
  intros H. destruct (Qlt_le_dec a c) as [Hac|Hca].
  - rewrite (py_max_r a c) by lra.
    destruct (Qlt_le_dec b c) as [Hbc|Hcb].
    + rewrite (py_max_r b c); lra.
    + rewrite (py_max_l b c); lra.
  - rewrite (py_max_l a c), (py_max_l b c); lra.
Qed.

Lemma gap_points_mono g g' :
  (Qabs g <= Qabs g')%Q -> (gap_points g <= gap_points g')%Q.
Proof. intros H. unfold gap_points. apply py_min_mono. lra. Qed.

Lemma range_points_mono r r' :
  (r <= r')%Q -> (range_points r <= range_points r')%Q.
Proof. intros H. unfold range_points. apply py_min_mono. lra. Qed.

Lemma volume_points_mono v v' :
  (v <= v')%Q -> (volume_points v <= volume_points v')%Q.
Proof.
  intros H. unfold volume_points. apply py_min_mono.
  assert (py_max (v - 1) 0 <= py_max (v' - 1) 0)%Q
    by (apply py_max_mono; lra).
  lra.
Qed.

Lemma volatility_points_mono s s' :
  (s <= s')%Q -> (volatility_points s <= volatility_points s')%Q.
Proof. intros H. unfold volatility_points. apply py_min_mono. lra. Qed.

Lemma contribution_mono (f : Q -> Q) (R : Q -> Q -> Prop) x x' :
  (forall a b, R a b -> (f a <= f b)%Q) ->
  option_Forall2 R x x' ->
  (contribution f x <= contribution f x')%Q.
Proof.
  intros Hf [a b Hab|]; simpl; [now apply Hf | lra].
Qed.

(** X7: the score never decreases when a defined input grows: a larger
    absolute gap, a larger range, a larger volume ratio or a larger
    volatility, the other inputs and the set of defined inputs being the
    same, gives a score at least as high. *)
Theorem in_play_score_monotone (gap gap' range range' volume volume' vol vol'
    : option Q) :
  option_Forall2 (fun g g' => (Qabs g <= Qabs g')%Q) gap gap' ->
  option_Forall2 Qle range range' ->
  option_Forall2 Qle volume volume' ->
  option_Forall2 Qle vol vol' ->
  (in_play_score gap range volume vol
   <= in_play_score gap' range' volume' vol')%Q.
Proof.
  intros Hg Hr Hv Hs. rewrite !in_play_score_sum.
  pose proof (contribution_mono gap_points _ _ _ gap_points_mono Hg).
  pose proof (contribution_mono range_points _ _ _ range_points_mono Hr).
  pose proof (contribution_mono volume_points _ _ _ volume_points_mono Hv).
  pose proof (contribution_mono volatility_points _ _ _
                volatility_points_mono Hs).
  lra.
Qed.

Lemma in_play_score_monotone_witness :
  (in_play_score (Some (8 # 100)) None (Some (5 # 2)) None
   <= in_play_score (Some (- (9 # 100))) None (Some 3) None)%Q.
Proof.
  apply in_play_score_monotone.
  - constructor. discriminate.
  - constructor.
  - constructor. discriminate.
  - constructor.
Defined.

(** X8: each contribution in closed form.  Volume: nothing up to the
    10-day average (ratio at most 1), ten points per unit of ratio above
    it, and 40 from a ratio of 5 on.  Gap: a hundred points per unit of
    absolute gap, 50 from an absolute gap of 1/2 on.  Range and volatility:
    a hundred points per unit, 30 from 3/10 on. *)
Theorem points_closed_form (g r v s : Q) :
  ((v <= 1 -> volume_points v == 0)
   /\ (1 <= v <= 5 -> volume_points v == (v - 1) * 10)
   /\ (5 <= v -> volume_points v == 40)
   /\ (Qabs g <= 1 # 2 -> gap_points g == Qabs g * 100)
   /\ ((1 # 2) <= Qabs g -> gap_points g == 50)
   /\ (r <= 3 # 10 -> range_points r == r * 100)
   /\ ((3 # 10) <= r -> range_points r == 30)
   /\ (s <= 3 # 10 -> volatility_points s == s * 100)
   /\ ((3 # 10) <= s -> volatility_points s == 30))%Q.
Proof.
  unfold volume_points, gap_points, range_points, volatility_points.
  repeat apply conj.
  - intros H. assert (E : (py_max (v - 1) 0 == 0)%Q) by (apply py_max_r; lra).
    rewrite py_min_l by (rewrite E; lra). rewrite E. ring.
  - intros H.
    assert (E : (py_max (v - 1) 0 == v - 1)%Q) by (apply py_max_l; lra).
    rewrite py_min_l by (rewrite E; lra). rewrite E. ring.
  - intros H.
    assert (E : (py_max (v - 1) 0 == v - 1)%Q) by (apply py_max_l; lra).
    rewrite py_min_r by (rewrite E; lra). reflexivity.
  - intros H. rewrite py_min_l; lra.
  - intros H. rewrite py_min_r; lra.
  - intros H. rewrite py_min_l; lra.
  - intros H. rewrite py_min_r; lra.
  - intros H. rewrite py_min_l; lra.
  - intros H. rewrite py_min_r; lra.
Qed.

Lemma points_closed_form_witness :
  (volume_points (1 # 2) == 0)%Q /\ (gap_points (- (3 # 4)) == 50)%Q.
Proof.
  pose proof (points_closed_form (- (3 # 4)) 0 (1 # 2) 0)
    as (Hv & _ & _ & _ & Hg & _).
  split; [apply Hv | apply Hg]; discriminate.
Defined.

(** ** The record of a symbol *)

Lemma compute_indicators_long sqrt symbol (rows : list value) fund :
  2 <= length rows ->
  compute_indicators_for_symbol sqrt symbol rows fund
  = (daily_prices_sorted ← py_sorted (fun row => py_getitem row "date") rows;
     last ← nth_from_end 1 daily_prices_sorted;
     prev ← nth_from_end 2 daily_prices_sorted;
     last_close ← py_getitem last "close";
     prev_close ← py_getitem prev "close";
     close_return ← close_return_1d last_close prev_close;
     trading_snapshot ← py_get fund "trading_snapshot" (VDict ∅);
     today_open ← py_get trading_snapshot "regularMarketOpen" VNone;
     today_high ← py_get trading_snapshot "regularMarketDayHigh" VNone;
     today_low ← py_get trading_snapshot "regularMarketDayLow" VNone;
     today_volume ← py_get trading_snapshot "regularMarketVolume" VNone;
     avg_vol_10d ← py_get trading_snapshot "averageDailyVolume10Day" VNone;
     prev_close_ref ← py_get trading_snapshot "regularMarketPreviousClose" VNone;
     gap ← gap_pct prev_close_ref prev_close today_open;
     range ← day_range_pct today_open today_high today_low;
     volume ← volume_ratio today_volume avg_vol_10d;
     returns ← compute_daily_returns daily_prices_sorted;
     vol ← vol_10d sqrt returns;
     Ok (<["symbol" := VStr symbol]>
         (<["close_return_1d" := opt_value close_return]>
         (<["gap_pct" := opt_value gap]>
         (<["day_range_pct" := opt_value range]>
         (<["volume_ratio" := opt_value volume]>
         (<["vol_10d" := opt_value vol]>
         (<["in_play_score" := VNum (in_play_score gap range volume vol)]> ∅)))))))).
Proof.
  intros H. unfold compute_indicators_for_symbol.
  apply Nat.ltb_ge in H. now rewrite H.
Qed.

(** X9: the record returned for a symbol with at least two bars has
    exactly the seven keys of a signal, carries the symbol it was computed
    for, and its [in_play_score] is the score of the four optional fields
    published in the same record. *)
Theorem compute_indicators_record sqrt symbol (rows : list value) fund m :
  2 <= length rows ->
  compute_indicators_for_symbol sqrt symbol rows fund = Ok m ->
  dom m = signal_keys
  /\ m !! "symbol" = Some (VStr symbol)
  /\ exists close_return gap range volume vol,
       m !! "close_return_1d" = Some (opt_value close_return)
       /\ m !! "gap_pct" = Some (opt_value gap)
       /\ m !! "day_range_pct" = Some (opt_value range)
       /\ m !! "volume_ratio" = Some (opt_value volume)
       /\ m !! "vol_10d" = Some (opt_value vol)
       /\ m !! "in_play_score"
          = Some (VNum (in_play_score gap range volume vol)).
Proof.
  intros Hlen H. rewrite (compute_indicators_long _ _ _ _ Hlen) in H.
  do 5 (apply bind_Ok in H as (? & _ & H)).
  apply bind_Ok in H as (close_return & _ & H).
  do 7 (apply bind_Ok in H as (? & _ & H)).
  apply bind_Ok in H as (gap & _ & H).
  apply bind_Ok in H as (range & _ & H).
  apply bind_Ok in H as (volume & _ & H).
  apply bind_Ok in H as (? & _ & H).
  apply bind_Ok in H as (vol & _ & H).
  injection H as <-. split; [|split].
  - unfold signal_keys. rewrite !dom_insert_L, dom_empty_L. set_solver.
  - reflexivity.
  - exists close_return, gap, range, volume, vol.
    repeat split; reflexivity.
Qed.

Lemma sample_record_computed :
  compute_indicators_for_symbol sqrt_approx "AAPL" sample_bars
    sample_fundamentals = Ok sample_record.
Proof. vm_compute. reflexivity. Qed.

Lemma compute_indicators_record_witness :
  dom sample_record = signal_keys
  /\ sample_record !! "symbol" = Some (VStr "AAPL").
Proof.
  pose proof (compute_indicators_record sqrt_approx "AAPL" sample_bars
                sample_fundamentals sample_record) as H.
  destruct H as (Hdom & Hsym & _).
  - simpl. lia.
  - exact sample_record_computed.
  - split; [exact Hdom | exact Hsym].
Defined.

(** ** Fundamentals without a usable snapshot *)

Lemma compute_indicators_same_snapshot sqrt symbol (rows : list value)
    fund fund' :
  py_get fund "trading_snapshot" (VDict ∅)
  = py_get fund' "trading_snapshot" (VDict ∅) ->
  compute_indicators_for_symbol sqrt symbol rows fund
  = compute_indicators_for_symbol sqrt symbol rows fund'.
Proof.
  intros H. unfold compute_indicators_for_symbol. now rewrite H.
Qed.

Lemma gap_pct_no_open a b : gap_pct a b VNone = Ok None.
Proof. unfold gap_pct. simpl. now rewrite andb_false_r. Qed.

(** X10: a fundamentals record without a [trading_snapshot] entry (as one
    with an empty snapshot) is handled like the empty record: no error
    comes from the snapshot, the gap, the day range and the volume ratio
    are undefined, and the score is the volatility contribution alone. *)
Theorem compute_indicators_without_snapshot sqrt symbol (rows : list value)
    (d : gmap string value) :
  d !! "trading_snapshot" = None \/ d !! "trading_snapshot" = Some (VDict ∅) ->
  compute_indicators_for_symbol sqrt symbol rows (VDict d)
  = compute_indicators_for_symbol sqrt symbol rows (VDict ∅)
  /\ forall m,
       2 <= length rows ->
       compute_indicators_for_symbol sqrt symbol rows (VDict d) = Ok m ->
       m !! "gap_pct" = Some VNone
       /\ m !! "day_range_pct" = Some VNone
       /\ m !! "volume_ratio" = Some VNone
       /\ exists vol,
            m !! "vol_10d" = Some (opt_value vol)
            /\ m !! "in_play_score"
               = Some (VNum (in_play_score None None None vol))
            /\ (in_play_score None None None vol
                == contribution volatility_points vol)%Q.
Proof.
  intros Hd.
  assert (Heq : compute_indicators_for_symbol sqrt symbol rows (VDict d)
                = compute_indicators_for_symbol sqrt symbol rows (VDict ∅)).
  { apply compute_indicators_same_snapshot. simpl.
    destruct Hd as [-> | ->]; reflexivity. }
  split; [exact Heq|]. intros m Hlen H. rewrite Heq in H.
  rewrite (compute_indicators_long _ _ _ _ Hlen) in H.
  do 6 (apply bind_Ok in H as (? & _ & H)).
  apply bind_Ok in H as (snapshot & Hsnap & H).
  injection Hsnap as <-.
  apply bind_Ok in H as (today_open & Ho & H). injection Ho as <-.
  apply bind_Ok in H as (today_high & Hh & H). injection Hh as <-.
  apply bind_Ok in H as (today_low & Hl & H). injection Hl as <-.
  apply bind_Ok in H as (today_volume & Hv & H). injection Hv as <-.
  apply bind_Ok in H as (avg_vol_10d & Ha & H). injection Ha as <-.
  apply bind_Ok in H as (prev_close_ref & Hr & H). injection Hr as <-.
  apply bind_Ok in H as (gap & Hgap & H).
  rewrite gap_pct_no_open in Hgap. injection Hgap as <-.
  apply bind_Ok in H as (range & Hrange & H). injection Hrange as <-.
  apply bind_Ok in H as (volume & Hvolume & H). injection Hvolume as <-.
  apply bind_Ok in H as (? & _ & H).
  apply bind_Ok in H as (vol & _ & H).
  injection H as <-.
  split; [reflexivity|]. split; [reflexivity|]. split; [reflexivity|].
  exists vol. split; [reflexivity|]. split; [reflexivity|].
  rewrite in_play_score_sum. simpl. ring.
Qed.

Lemma compute_indicators_without_snapshot_witness :
  compute_indicators_for_symbol sqrt_approx "AAPL" sample_bars
    (VDict (<["key_stats" := VDict ∅]> ∅))
  = compute_indicators_for_symbol sqrt_approx "AAPL" sample_bars (VDict ∅).
Proof.
  apply (compute_indicators_without_snapshot sqrt_approx "AAPL"
           sample_bars (<["key_stats" := VDict ∅]> ∅)).
  left. reflexivity.
Defined.

(** X11: a [trading_snapshot] that is present but is not a dict (a JSON
    null, a number, a string) is not replaced by the default: with at least
    two bars the function never returns a record, and when the bars alone
    are processed without error it raises [AttributeError]. *)
Theorem compute_indicators_bad_snapshot sqrt symbol (rows : list value)
    (d : gmap string value) (v : value) :
  d !! "trading_snapshot" = Some v ->
  is_dict v = false ->
  2 <= length rows ->
  (forall m, compute_indicators_for_symbol sqrt symbol rows (VDict d) <> Ok m)
  /\ (forall m, compute_indicators_for_symbol sqrt symbol rows (VDict ∅) = Ok m ->
        compute_indicators_for_symbol sqrt symbol rows (VDict d)
        = Raise AttributeError).
Proof.
  intros Hd Hv Hlen.
  assert (Hget : py_get (VDict d) "trading_snapshot" (VDict ∅) = Ok v)
    by (simpl; now rewrite Hd).
  assert (Hattr : forall k, py_get v k VNone = Raise AttributeError)
    by (intros k; destruct v; try reflexivity; discriminate Hv).
  split.
  - intros m H. rewrite (compute_indicators_long _ _ _ _ Hlen) in H.
    do 6 (apply bind_Ok in H as (? & _ & H)).
    apply bind_Ok in H as (snapshot & Hsnap & H).
    rewrite Hget in Hsnap. injection Hsnap as <-.
    apply bind_Ok in H as (? & Ho & _). rewrite Hattr in Ho. discriminate Ho.
  - intros m H. rewrite (compute_indicators_long _ _ _ _ Hlen) in H.
    rewrite (compute_indicators_long _ _ _ _ Hlen).
    apply bind_Ok in H as (? & -> & H). rewrite result_bind_Ok.
    apply bind_Ok in H as (? & -> & H). rewrite result_bind_Ok.
    apply bind_Ok in H as (? & -> & H). rewrite result_bind_Ok.
    apply bind_Ok in H as (? & -> & H). rewrite result_bind_Ok.
    apply bind_Ok in H as (? & -> & H). rewrite result_bind_Ok.
    apply bind_Ok in H as (? & -> & H). rewrite result_bind_Ok.
    rewrite Hget, result_bind_Ok, (Hattr "regularMarketOpen"). reflexivity.
Qed.

Lemma compute_indicators_bad_snapshot_witness :
  compute_indicators_for_symbol sqrt_approx "AAPL" sample_bars
    (VDict (<["trading_snapshot" := VNone]> ∅))
  = Raise AttributeError.
Proof.
  assert (Hd : (<["trading_snapshot" := VNone]> ∅ : gmap string value)
               !! "trading_snapshot" = Some VNone) by reflexivity.
  destruct (compute_indicators_bad_snapshot sqrt_approx "AAPL" sample_bars
              _ VNone Hd eq_refl (le_n 2)) as [_ H].
  apply (H (<["symbol" := VStr "AAPL"]>
            (<["close_return_1d" := VNum (110 / 100 - 1)]>
            (<["gap_pct" := VNone]>
            (<["day_range_pct" := VNone]>
            (<["volume_ratio" := VNone]>
            (<["vol_10d" := VNone]>
            (<["in_play_score" := VNum 0]> ∅)))))))).
  vm_compute. reflexivity.
Defined.

(** ** Volatility needs three bars *)

Lemma returns_of_pairs_length_le (closes : list value) rs :
  returns_of_pairs closes = Ok rs -> length rs <= length closes - 1.
Proof.
  revert rs. induction closes as [|prev [|curr rest] IH]; intros rs H.
  - injection H as <-. simpl. lia.
  - injection H as <-. simpl. lia.
  - rewrite returns_of_pairs_cons2 in H.
    remember (returns_of_pairs (curr :: rest)) as r eqn:Hr. clear Hr.
    simpl length in *. destruct (unusable prev).
    + specialize (IH _ H). lia.
    + apply bind_Ok in H as (q & _ & H). apply bind_Ok in H as (rs' & -> & H).
      injection H as <-. specialize (IH _ eq_refl). simpl. lia.
Qed.

Lemma compute_daily_returns_length_le (prices : list value) rs :
  compute_daily_returns prices = Ok rs -> length rs <= length prices - 1.
Proof.
  unfold compute_daily_returns. intros H.
  apply bind_Ok in H as (closes & Hc & H).
  rewrite returns_of_closes_pairs in H.
  apply returns_of_pairs_length_le in H.
  apply mapM_result_length in Hc. lia.
Qed.

(** X12: a defined [vol_10d] takes at least three bars: with two bars
    there is at most one return, so the volatility is undefined whatever
    the closes are. *)
Theorem vol_10d_needs_three_bars sqrt symbol (rows : list value) fund m s :
  compute_indicators_for_symbol sqrt symbol rows fund = Ok m ->
  m !! "vol_10d" = Some (VNum s) ->
  3 <= length rows.
Proof.
  intros H Hm. destruct (le_lt_dec 2 (length rows)) as [Hlen|Hlen].
  - rewrite (compute_indicators_long _ _ _ _ Hlen) in H.
    apply bind_Ok in H as (ls & Hs & H).
    do 15 (apply bind_Ok in H as (? & _ & H)).
    apply bind_Ok in H as (rs & Hrs & H).
    apply bind_Ok in H as (vol & Hvol & H).
    injection H as <-.
    assert (Hv : opt_value vol = VNum s).
    { assert (E : Some (opt_value vol) = Some (VNum s)) by exact Hm.
      now injection E. }
    apply py_sorted_is_Permutation, Permutation_length in Hs.
    apply compute_daily_returns_length_le in Hrs.
    unfold vol_10d in Hvol.
    destruct (2 <=? length rs) eqn:E.
    + apply Nat.leb_le in E. lia.
    + injection Hvol as <-. discriminate Hv.
  - rewrite (compute_indicators_short _ _ _ _ Hlen) in H.
    injection H as <-. rewrite lookup_empty in Hm. discriminate Hm.
Qed.

Lemma vol_10d_needs_three_bars_witness :
  3 <= length [bar "2024-01-01" (VNum 100); bar "2024-01-02" (VNum 110);
               bar "2024-01-03" (VNum 99)].
Proof.
  apply (vol_10d_needs_three_bars sqrt_approx "AAPL"
           [bar "2024-01-01" (VNum 100); bar "2024-01-02" (VNum 110);
            bar "2024-01-03" (VNum 99)] (VDict ∅)
           (<["symbol" := VStr "AAPL"]>
            (<["close_return_1d" := VNum (99 / 110 - 1)]>
            (<["gap_pct" := VNone]>
            (<["day_range_pct" := VNone]>
            (<["volume_ratio" := VNone]>
            (<["vol_10d" :=
                 VNum (sqrt_approx
                         (sample_variance [110 / 100 - 1; 99 / 110 - 1]%Q))]>
            (<["in_play_score" :=
                 VNum (in_play_score None None None
                         (Some (sqrt_approx
                            (sample_variance [110 / 100 - 1; 99 / 110 - 1]%Q))))]>
               ∅)))))))
           (sqrt_approx (sample_variance [110 / 100 - 1; 99 / 110 - 1]%Q))).
  - vm_compute. reflexivity.
  - reflexivity.
Defined.

(** ** The aggregation loop *)

Lemma collect_signals_app sqrt l1 l2 fbs signals :
  collect_signals sqrt (l1 ++ l2) fbs signals
  = (signals' ← collect_signals sqrt l1 fbs signals;
     collect_signals sqrt l2 fbs signals').
Proof.
  revert signals. induction l1 as [|[s r] l1 IH]; intros signals; simpl;
    [reflexivity|].
  destruct (compute_indicators_for_symbol sqrt s r _) as [ind|e]; simpl;
    [|reflexivity].
  destruct (negb _); apply IH.
Qed.

(** X13: the loop has no error handling: when the symbols before a symbol
    are processed without error and that symbol's computation raises, the
    whole run raises the same exception, whatever comes after it, and no
    mapping is produced. *)
Theorem main_signals_first_error sqrt (before after : list (string * list value))
    (symbol : string) (rows : list value) (fbs : gmap string value) out e :
  main_signals sqrt before fbs = Ok out ->
  compute_indicators_for_symbol sqrt symbol rows
    (default (VDict ∅) (fbs !! symbol)) = Raise e ->
  main_signals sqrt (before ++ (symbol, rows) :: after) fbs = Raise e.
Proof.
  unfold main_signals. intros Hb He.
  rewrite collect_signals_app, Hb, result_bind_Ok. simpl.
  now rewrite He.
Qed.

Lemma main_signals_first_error_witness :
  main_signals sqrt_approx
    ([("AAPL", sample_bars)]
     ++ ("MSFT", [bar "2024-01-01" (VNum 100); bar "2024-01-02" VNone])
     :: [("GOOG", sample_bars)]) ∅
  = Raise TypeError.
Proof.
  eapply (main_signals_first_error sqrt_approx [("AAPL", sample_bars)]
            [("GOOG", sample_bars)] "MSFT"
            [bar "2024-01-01" (VNum 100); bar "2024-01-02" VNone] ∅).
  - vm_compute. reflexivity.
  - vm_compute. reflexivity.
Defined.

Lemma collect_signals_cons sqrt symbol (rows : list value) items fbs signals :
  collect_signals sqrt ((symbol, rows) :: items) fbs signals
  = (indicators ← compute_indicators_for_symbol sqrt symbol rows
                    (default (VDict ∅) (fbs !! symbol));
     if truthy (VDict indicators) then
       collect_signals sqrt items fbs (<[symbol := VDict indicators]> signals)
     else collect_signals sqrt items fbs signals).
Proof. reflexivity. Qed.

Lemma collect_signals_lookup sqrt items fbs signals out :
  collect_signals sqrt items fbs signals = Ok out ->
  NoDup items.*1 ->
  (forall s, s ∈ items.*1 -> signals !! s = None) ->
  forall s v,
    out !! s = Some v <->
    signals !! s = Some v
    \/ exists rows m,
         (s, rows) ∈ items /\ 2 <= length rows
         /\ compute_indicators_for_symbol sqrt s rows
              (default (VDict ∅) (fbs !! s)) = Ok m
         /\ v = VDict m.
Proof.
  revert signals.
  induction items as [|[s0 r0] items IH]; intros signals H Hnd Hfresh s v.
  - injection H as <-. split; [auto|].
    intros [H|(rows & m & Hin & _)]; [exact H|].
    now apply elem_of_nil in Hin.
  - rewrite collect_signals_cons in H. apply bind_Ok in H as (ind & Hind & H).
    rewrite fmap_cons in Hnd. apply NoDup_cons in Hnd as [Hs0 Hnd].
    simpl in Hs0.
    assert (Hsig0 : signals !! s0 = None)
      by (apply Hfresh; rewrite fmap_cons; left).
    destruct (le_lt_dec 2 (length r0)) as [Hlen|Hlen].
    + rewrite (compute_indicators_truthy _ _ _ _ _ Hlen Hind) in H.
      rewrite (IH _ H Hnd); clear IH.
      * split.
        -- intros [Hl | (rows & m & Hin & Hl2 & Hc & ->)].
           ++ destruct (decide (s0 = s)) as [<-|Hne].
              ** rewrite lookup_insert_eq in Hl. injection Hl as <-.
                 right. exists r0, ind.
                 split; [left|split; [exact Hlen|split; [exact Hind|reflexivity]]].
              ** rewrite lookup_insert_ne in Hl by exact Hne. now left.
           ++ right. exists rows, m. split; [now right|auto].
        -- intros [Hl | (rows & m & Hin & Hl2 & Hc & ->)].
           ++ left. rewrite lookup_insert_ne; [exact Hl|].
              intros ->. congruence.
           ++ apply elem_of_cons in Hin as [Heq|Hin].
              ** injection Heq as -> ->. rewrite Hind in Hc.
                 injection Hc as ->. left. apply lookup_insert_eq.
              ** right. exists rows, m. auto.
      * intros s' Hs'. rewrite lookup_insert_ne.
        -- apply Hfresh. rewrite fmap_cons. now right.
        -- intros ->. contradiction.
    + rewrite (compute_indicators_short _ _ _ _ Hlen) in Hind.
      injection Hind as <-.
      assert (E : truthy (VDict ∅) = false) by reflexivity.
      rewrite E in H. rewrite (IH _ H Hnd); clear IH.
      * split; (intros [Hl | (rows & m & Hin & Hl2 & Hc & ->)]; [now left|]).
        -- right. exists rows, m. split; [now right|auto].
        -- apply elem_of_cons in Hin as [Heq|Hin].
           ++ injection Heq as -> ->. lia.
           ++ right. exists rows, m. auto.
      * intros s' Hs'. apply Hfresh. rewrite fmap_cons. now right.
Qed.

(** X14: over a price mapping (its symbols are distinct keys), a run that
    raises nothing maps a symbol to a value exactly when the symbol has at
    least 2 bars and the value is the record computed from that symbol's
    own bars and its own fundamentals entry (the empty record when it has
    none): the other symbols have no influence on it. *)
Theorem main_signals_entries sqrt (items : list (string * list value))
    (fbs : gmap string value) out :
  NoDup items.*1 ->
  main_signals sqrt items fbs = Ok out ->
  forall s v,
    out !! s = Some v <->
    exists rows m,
      (s, rows) ∈ items /\ 2 <= length rows
      /\ compute_indicators_for_symbol sqrt s rows
           (default (VDict ∅) (fbs !! s)) = Ok m
      /\ v = VDict m.
Proof.
  intros Hnd H s v. unfold main_signals in H.
  rewrite (collect_signals_lookup _ _ _ _ _ H Hnd (fun s' _ => lookup_empty s')).
  rewrite lookup_empty. split; [intros [Hl|Hr]; [discriminate Hl|exact Hr]|].
  intros Hr. now right.
Qed.

Lemma main_signals_entries_witness :
  exists rows m,
    ("AAPL", rows)
      ∈ [("AAPL", sample_bars); ("MSFT", [bar "2024-01-01" (VNum 1)])]
    /\ 2 <= length rows
    /\ compute_indicators_for_symbol sqrt_approx "AAPL" rows
         (default (VDict ∅)
            ((<["AAPL" := sample_fundamentals]> ∅ : gmap string value)
               !! "AAPL"))
       = Ok m
    /\ VDict sample_record = VDict m.
Proof.
  refine (proj1 (main_signals_entries sqrt_approx
                   [("AAPL", sample_bars);
                    ("MSFT", [bar "2024-01-01" (VNum 1)])]
                   (<["AAPL" := sample_fundamentals]> ∅)
                   (<["AAPL" := VDict sample_record]> ∅)
                   _ _ "AAPL" (VDict sample_record)) _).
  - apply NoDup_cons. split.
    + rewrite list_elem_of_singleton. discriminate.
    + apply NoDup_singleton.
  - vm_compute. reflexivity.
  - reflexivity.
Defined.

(** ** The date sort *)

Lemma key_ltb_irrefl a : key_ltb a a = false.
Proof.
  destruct a as [|q|s|d]; simpl; try reflexivity.
  - unfold Qltb. apply negb_false_iff, Qle_bool_iff. apply Qle_refl.
  - destruct (String.ltb s s) eqn:E; [|reflexivity].
    unfold String.ltb in E.
    pose proof (String.compare_antisym s s) as C.
    destruct (String.compare s s); try discriminate E. discriminate C.
Qed.

Lemma key_ltb_asym a b : key_ltb a b = true -> key_ltb b a = false.
Proof.
  intros H. destruct (key_ltb b a) eqn:E; [|reflexivity].
  destruct a as [|x|s|?], b as [|y|t|?]; try discriminate H; simpl in *.
  - apply Qltb_true in H, E. lra.
  - destruct (decide (s = t)) as [->|Hne].
    + pose proof (key_ltb_irrefl (VStr t)) as Hi. simpl in Hi. congruence.
    + rewrite (string_ltb_flip _ _ Hne), E in H. discriminate H.
Qed.

Lemma insert_by_key_sorted {A} (x : value * A) (l : list (value * A)) :
  uniform (x.1 :: l.*1) ->
  StronglySorted key_le l -> StronglySorted key_le (insert_by_key x l).
Proof.
  induction l as [|y l IH]; intros Hu Hs; simpl.
  - repeat constructor.
  - apply StronglySorted_inv in Hs as [Hs Hy].
    destruct (key_ltb y.1 x.1) eqn:E.
    + apply SSorted_cons.
      * apply IH; [|exact Hs].
        rewrite fmap_cons in Hu.
        apply (uniform_Permutation _ (y.1 :: x.1 :: l.*1)) in Hu;
          [|apply perm_swap].
        now apply uniform_tail in Hu.
      * rewrite insert_by_key_Permutation. constructor; [|exact Hy].
        now apply key_ltb_asym.
    + apply SSorted_cons; [now apply SSorted_cons|].
      constructor; [exact E|].
      rewrite Forall_forall in Hy |- *. intros z Hz.
      specialize (Hy z Hz). unfold key_le in *.
      destruct (key_ltb z.1 x.1) eqn:Ez; [|reflexivity].
      assert (Hzl : z.1 ∈ x.1 :: (y :: l).*1).
      { right. right. now apply list_elem_of_fmap_2. }
      rewrite <- E. symmetry. apply (key_ltb_negtrans y.1 x.1 z.1).
      * apply (uniform_same_class _ _ _ Hu Hzl). right. left.
      * apply (uniform_same_class _ _ _ Hu Hzl). left.
      * exact Hy.
      * exact Ez.
Qed.

Lemma sort_by_key_sorted {A} (l : list (value * A)) :
  uniform l.*1 -> StronglySorted key_le (sort_by_key l).
Proof.
  induction l as [|x l IH]; intros Hu; [constructor|].
  change (sort_by_key (x :: l)) with (insert_by_key x (sort_by_key l)).
  apply insert_by_key_sorted.
  - apply (uniform_Permutation (x.1 :: l.*1)); [|exact Hu].
    constructor. apply fmap_Permutation. symmetry.
    apply sort_by_key_Permutation.
  - apply IH. now apply uniform_tail in Hu.
Qed.

Lemma sorted_rows_of_keyed (l : list (value * value)) :
  Forall (fun p => p.1 = date_of p.2) l ->
  StronglySorted key_le l -> StronglySorted date_le l.*2.
Proof.
  induction 2 as [|p l Hs IH Hp]; [constructor|].
  apply Forall_cons in H as [Hk H]. rewrite fmap_cons.
  apply SSorted_cons; [now apply IH|].
  rewrite Forall_fmap. rewrite Forall_forall in Hp, H |- *.
  intros q Hq. specialize (Hp q Hq). specialize (H q Hq).
  unfold date_le, key_le in *. simpl. now rewrite <- Hk, <- H.
Qed.

Lemma nth_from_end_last {A} (l : list A) x :
  nth_from_end 1 l = Ok x -> exists init, l = init ++ [x].
Proof.
  unfold nth_from_end. destruct (length l <? 1); [discriminate|].
  rewrite Nat.sub_1_r, <- last_lookup.
  destruct (last l) as [y|] eqn:E; [|discriminate].
  intros H. injection H as <-. now apply last_Some in E.
Qed.

(** X15: when the date sort succeeds its result is a rearrangement of the
    input bars in ascending date order (no bar is followed, at any
    distance, by a bar with a smaller date); so the bar taken as [last]
    has a date that is not smaller than the date of any bar of the
    input. *)
Theorem py_sorted_ascending (rows ls : list value) :
  py_sorted (fun row => py_getitem row "date") rows = Ok ls ->
  Permutation rows ls
  /\ StronglySorted date_le ls
  /\ forall last, nth_from_end 1 ls = Ok last ->
       forall row, row ∈ rows -> key_ltb (date_of last) (date_of row) = false.
Proof.
  intros H. pose proof (py_sorted_is_Permutation _ _ H) as HP.
  assert (Hs : StronglySorted date_le ls).
  { unfold py_sorted in H. apply bind_Ok in H as (keys & Hk & H).
    destruct (dates_of_keyed _ _ Hk) as [-> _].
    destruct (orderable (map date_of rows)) eqn:Ho; [|discriminate].
    injection H as <-. rewrite zip_keyed.
    change (map snd (sort_by_key (map keyed rows)))
      with ((sort_by_key (map keyed rows)).*2).
    destruct rows as [|a [|b rows]].
    - constructor.
    - repeat constructor.
    - apply sorted_rows_of_keyed.
      + rewrite sort_by_key_Permutation. rewrite Forall_fmap.
        apply Forall_forall. intros r _. reflexivity.
      + apply sort_by_key_sorted. rewrite fst_keyed.
        rewrite orderable_ge2 in Ho by (simpl; lia).
        now apply forallb_uniform. }
  split; [exact HP|]. split; [exact Hs|].
  intros last Hl row Hrow.
  apply nth_from_end_last in Hl as [init ->].
  rewrite HP in Hrow. apply elem_of_app in Hrow as [Hi|Hi].
  - apply (StronglySorted_app_1_elem_of _ _ _ row last Hs Hi). left.
  - apply list_elem_of_singleton in Hi as ->. apply key_ltb_irrefl.
Qed.

Lemma py_sorted_ascending_witness :
  Permutation [bar "2024-01-03" (VNum 99); bar "2024-01-01" (VNum 100);
               bar "2024-01-02" (VNum 110)]
              [bar "2024-01-01" (VNum 100); bar "2024-01-02" (VNum 110);
               bar "2024-01-03" (VNum 99)]
  /\ key_ltb (date_of (bar "2024-01-03" (VNum 99)))
             (date_of (bar "2024-01-02" (VNum 110))) = false.
Proof.
  destruct (py_sorted_ascending
              [bar "2024-01-03" (VNum 99); bar "2024-01-01" (VNum 100);
               bar "2024-01-02" (VNum 110)]
              [bar "2024-01-01" (VNum 100); bar "2024-01-02" (VNum 110);
               bar "2024-01-03" (VNum 99)]) as (HP & _ & Hlast).
  - vm_compute. reflexivity.
  - split; [exact HP|].
    apply (Hlast _ eq_refl). right. right. left.
Defined.

(** ** A bar that cannot be sorted *)

Lemma mapM_result_first_error {A B} (f : A -> result B) before x after e :
  Forall (fun y => exists b, f y = Ok b) before ->
  f x = Raise e ->
  mapM_result f (before ++ x :: after) = Raise e.
Proof.
  intros HF Hx. induction HF as [|y before [b Hy] _ IH]; simpl.
  - now rewrite Hx.
  - rewrite Hy. simpl. now rewrite IH.
Qed.

Lemma forallb_false_elem {A} (p : A -> bool) (l : list A) x :
  x ∈ l -> p x = false -> forallb p l = false.
Proof.
  intros Hin Hp. induction l as [|y l IH]; [now apply elem_of_nil in Hin|].
  apply elem_of_cons in Hin as [->|Hin]; simpl.
  - now rewrite Hp.
  - rewrite (IH Hin). apply andb_false_r.
Qed.

(** X16: with at least 2 bars, the first bar whose date cannot be read (a
    bar without a ["date"] key: [KeyError]) makes the whole computation
    for the symbol raise that exception; and when all dates can be read,
    a null date, a dict as a date, or a string date together with a
    number date make it raise [TypeError]. *)
Theorem compute_indicators_unsortable sqrt symbol (rows : list value) fund :
  2 <= length rows ->
  (forall before row after e,
     rows = before ++ row :: after ->
     Forall (fun r => exists k, py_getitem r "date" = Ok k) before ->
     py_getitem row "date" = Raise e ->
     compute_indicators_for_symbol sqrt symbol rows fund = Raise e)
  /\ (forall keys,
        dates_of rows = Ok keys ->
        (exists k, k ∈ keys /\ (k = VNone \/ is_dict k = true))
        \/ (exists a b, a ∈ keys /\ b ∈ keys
                        /\ is_str a = true /\ is_num b = true) ->
        compute_indicators_for_symbol sqrt symbol rows fund = Raise TypeError).
Proof.
  intros Hlen. rewrite (compute_indicators_long _ _ _ _ Hlen). split.
  - intros before row after e -> HF He. unfold py_sorted.
    now rewrite (mapM_result_first_error _ _ _ _ _ HF He).
  - intros keys Hk Hkeys. unfold py_sorted. unfold dates_of in Hk.
    rewrite Hk. simpl.
    assert (Ho : orderable keys = false).
    { rewrite orderable_ge2
        by (apply mapM_result_length in Hk; now rewrite Hk).
      apply orb_false_iff.
      destruct Hkeys as [(k & Hin & Hcase)|(a & b & Ha & Hb & Hsa & Hnb)].
      - split; apply (forallb_false_elem _ _ k Hin);
          destruct Hcase as [->|Hd]; try reflexivity;
          destruct k; try discriminate Hd; reflexivity.
      - split.
        + apply (forallb_false_elem _ _ b Hb).
          destruct b; try discriminate Hnb; reflexivity.
        + apply (forallb_false_elem _ _ a Ha).
          destruct a; try discriminate Hsa; reflexivity. }
    now rewrite Ho.
Qed.

Lemma compute_indicators_unsortable_witness :
  compute_indicators_for_symbol sqrt_approx "AAPL"
    [bar "2024-01-01" (VNum 100); VDict (<["close" := VNum 110]> ∅)]
    (VDict ∅) = Raise KeyError
  /\ compute_indicators_for_symbol sqrt_approx "AAPL"
       [bar "2024-01-01" (VNum 100);
        VDict (<["date" := VNum 20240102]> (<["close" := VNum 110]> ∅))]
       (VDict ∅) = Raise TypeError.
Proof.
  split.
  - destruct (compute_indicators_unsortable sqrt_approx "AAPL"
                [bar "2024-01-01" (VNum 100); VDict (<["close" := VNum 110]> ∅)]
                (VDict ∅)) as [H _]; [simpl; lia|].
    apply (H [bar "2024-01-01" (VNum 100)] _ [] KeyError eq_refl).
    + constructor; [|constructor]. eexists. reflexivity.
    + reflexivity.
  - destruct (compute_indicators_unsortable sqrt_approx "AAPL"
                [bar "2024-01-01" (VNum 100);
                 VDict (<["date" := VNum 20240102]> (<["close" := VNum 110]> ∅))]
                (VDict ∅)) as [_ H]; [simpl; lia|].
    apply (H [VStr "2024-01-01"; VNum 20240102]).
    + vm_compute. reflexivity.
    + right. exists (VStr "2024-01-01"), (VNum 20240102).
      split; [left|]. split; [right; left|]. split; reflexivity.
Defined.

(** ** Key selection *)

Lemma pick_keys_foldl (source : gmap string value) keys
    (picked : gmap string value) k :
  foldl (fun (picked : gmap string value) k =>
           if decide (is_Some (source !! k))
           then <[k := default VNone (source !! k)]> picked
           else picked) picked keys !! k
  = if decide (k ∈ keys) then
      match source !! k with Some v => Some v | None => picked !! k end
    else picked !! k.
Proof.
  revert picked. induction keys as [|a keys IH]; intros picked; simpl.
  - destruct (decide (k ∈ [])) as [H|_]; [|reflexivity].
    now apply elem_of_nil in H.
  - rewrite IH. clear IH.
    destruct (decide (k = a)) as [->|Hne].
    + destruct (decide (a ∈ a :: keys)) as [_|H]; [|exfalso; apply H; left].
      destruct (source !! a) as [v|] eqn:E.
      * destruct (decide (is_Some (Some v))) as [_|H];
          [|exfalso; apply H; eauto].
        simpl. rewrite lookup_insert_eq. now destruct (decide (a ∈ keys)).
      * destruct (decide (is_Some None)) as [[? H]|_]; [discriminate H|].
        now destruct (decide (a ∈ keys)).
    + assert (Hp : (if decide (is_Some (source !! a))
                    then <[a := default VNone (source !! a)]> picked
                    else picked) !! k = picked !! k).
      { destruct (decide _); [|reflexivity].
        now rewrite lookup_insert_ne. }
      rewrite Hp.
      destruct (decide (k ∈ keys)) as [Hin|Hin].
      * destruct (decide (k ∈ a :: keys)) as [_|H];
          [reflexivity|exfalso; apply H; now right].
      * destruct (decide (k ∈ a :: keys)) as [H|_]; [|reflexivity].
        apply elem_of_cons in H as [H|H]; contradiction.
Qed.

Lemma pick_keys_lookup (source : gmap string value) keys k :
  pick_keys source keys !! k = if decide (k ∈ keys) then source !! k else None.
Proof.
  unfold pick_keys. rewrite pick_keys_foldl, lookup_empty.
  destruct (decide _); [|reflexivity]. now destruct (source !! k).
Qed.

(** X17: [pick_keys] returns the source restricted to the listed keys: a
    listed key has the value it has in the source (a key present with
    value [None] is kept, a missing key is left out), no other key
    appears, and so the result is a sub-dict of the source whose keys are
    the listed keys that the source has. *)
Theorem pick_keys_restricts (source : gmap string value) (keys : list string) :
  (forall k, pick_keys source keys !! k
             = if decide (k ∈ keys) then source !! k else None)
  /\ pick_keys source keys ⊆ source
  /\ dom (pick_keys source keys) = dom source ∩ list_to_set keys.
Proof.
  split; [apply pick_keys_lookup|]. split.
  - apply map_subseteq_spec. intros k v. rewrite pick_keys_lookup.
    destruct (decide _); [auto|discriminate].
  - apply set_eq. intros k.
    rewrite elem_of_dom, elem_of_intersection, elem_of_dom,
      elem_of_list_to_set, pick_keys_lookup.
    destruct (decide (k ∈ keys)) as [Hin|Hin].
    + tauto.
    + split; [intros [? H]; discriminate H | tauto].
Qed.

(** X18: selections compose and do not depend on how the keys are
    listed: selecting [keys'] from a selection of [keys] is selecting the
    keys of [keys'] that are in [keys]; selecting the same keys again
    changes nothing; two lists with the same members (in any order, with
    or without repetitions) select the same dict. *)
Theorem pick_keys_compose (source : gmap string value) (keys keys' : list string) :
  pick_keys (pick_keys source keys) keys'
  = pick_keys source (filter (fun k => k ∈ keys) keys')
  /\ pick_keys (pick_keys source keys) keys = pick_keys source keys
  /\ ((forall k, k ∈ keys <-> k ∈ keys') ->
      pick_keys source keys = pick_keys source keys').
Proof.
  split; [|split].
  - apply map_eq. intros k. rewrite !pick_keys_lookup.
    destruct (decide (k ∈ keys')) as [H'|H'];
      destruct (decide (k ∈ keys)) as [H|H];
      destruct (decide (k ∈ filter (fun k => k ∈ keys) keys')) as [Hf|Hf];
      try reflexivity; exfalso.
    + apply Hf. apply list_elem_of_filter. auto.
    + apply list_elem_of_filter in Hf as [? _]. contradiction.
    + apply list_elem_of_filter in Hf as [_ ?]. contradiction.
    + apply list_elem_of_filter in Hf as [_ ?]. contradiction.
  - apply map_eq. intros k. rewrite !pick_keys_lookup.
    now destruct (decide (k ∈ keys)).
  - intros Hk. apply map_eq. intros k. rewrite !pick_keys_lookup.
    destruct (decide (k ∈ keys)) as [H|H];
      destruct (decide (k ∈ keys')) as [H'|H']; try reflexivity;
      exfalso; apply Hk in H || apply Hk in H'; contradiction.
Qed.

Lemma pick_keys_compose_witness :
  pick_keys (<["beta" := VNum 1]> (<["bookValue" := VNone]> ∅))
            ["beta"; "bookValue"; "priceToBook"]
  = pick_keys (<["beta" := VNum 1]> (<["bookValue" := VNone]> ∅))
              ["priceToBook"; "bookValue"; "beta"; "beta"].
Proof.
  apply (pick_keys_compose (<["beta" := VNum 1]> (<["bookValue" := VNone]> ∅))
           ["beta"; "bookValue"; "priceToBook"]
           ["priceToBook"; "bookValue"; "beta"; "beta"]).
  intros k. rewrite !elem_of_cons, !elem_of_nil. tauto.
Defined.

(** ** Records made ready for JSON *)

Lemma json_ready_row_has_date repr (row : gmap string value) :
  has_date row -> json_ready_row repr row = Ok (intraday_row repr row).
Proof.
  intros [v Hv]. unfold json_ready_row, intraday_row, py_getitem.
  rewrite Hv. simpl. destruct v; simpl; try reflexivity.
  now rewrite insert_id.
Qed.

Lemma json_ready_row_no_date repr (row : gmap string value) :
  row !! "date" = None -> json_ready_row repr row = Raise KeyError.
Proof.
  intros Hv. unfold json_ready_row, py_getitem. now rewrite Hv.
Qed.

Lemma json_ready_records_Ok repr (rows out : list (gmap string value)) :
  json_ready_records repr rows = Ok out <->
  Forall has_date rows /\ out = intraday_records repr rows.
Proof.
  revert out. induction rows as [|row rows IH]; intros out.
  - split.
    + intros H. injection H as <-. split; [constructor|reflexivity].
    + now intros [_ ->].
  - unfold json_ready_records. simpl.
    destruct (row !! "date") as [v|] eqn:Hv.
    + rewrite (json_ready_row_has_date _ _ (ex_intro _ v Hv)). simpl.
      split.
      * intros H. apply bind_Ok in H as (ys & Hys & H).
        injection H as <-. apply IH in Hys as [HF ->].
        split; [constructor; [now exists v|exact HF]|reflexivity].
      * intros [HF ->]. apply Forall_inv_tail in HF.
        assert (Hys : json_ready_records repr rows
                      = Ok (intraday_records repr rows))
          by (apply IH; auto).
        unfold json_ready_records in Hys. now rewrite Hys.
    + rewrite (json_ready_row_no_date _ _ Hv). simpl.
      split; [discriminate|].
      intros [HF _]. apply Forall_inv in HF as [v Hv']. congruence.
Qed.

Lemma json_ready_records_Raise repr (rows : list (gmap string value)) e :
  json_ready_records repr rows = Raise e <->
  e = KeyError /\ Exists (fun row => row !! "date" = None) rows.
Proof.
  revert e. induction rows as [|row rows IH]; intros e.
  - split; [discriminate|]. intros [_ H]. now apply Exists_nil in H.
  - unfold json_ready_records. simpl.
    destruct (row !! "date") as [v|] eqn:Hv.
    + rewrite (json_ready_row_has_date _ _ (ex_intro _ v Hv)). simpl.
      fold (json_ready_records repr rows).
      destruct (json_ready_records repr rows) as [ys|e'] eqn:E; simpl.
      * split; [discriminate|]. intros [-> H].
        apply Exists_cons in H as [H|H]; [congruence|].
        assert (Hr : Ok ys = Raise KeyError :> result (list (gmap string value)))
          by (apply IH; auto).
        discriminate Hr.
      * split.
        -- intros H. injection H as <-.
           destruct (proj1 (IH e') eq_refl) as [-> H].
           split; [reflexivity|now right].
        -- intros [-> H]. apply Exists_cons in H as [H|H]; [congruence|].
           apply IH. auto.
    + rewrite (json_ready_row_no_date _ _ Hv). simpl. split.
      * intros H. injection H as <-. split; [reflexivity|now left].
      * now intros [-> _].
Qed.

(** X19: the record loop of [prices_to_json_ready] returns exactly when
    every record has a ["date"] key, and then returns what the loop of
    [fetch_intraday] returns on the same records; on records of which one
    has no ["date"] key it raises [KeyError], where the loop of
    [fetch_intraday] passes that record on unchanged. *)
Theorem record_loops_agree repr (rows : list (gmap string value)) :
  (forall out,
     json_ready_records repr rows = Ok out <->
     Forall has_date rows /\ out = intraday_records repr rows)
  /\ (forall e,
        json_ready_records repr rows = Raise e <->
        e = KeyError /\ Exists (fun row => row !! "date" = None) rows)
  /\ (forall row, row ∈ rows -> row !! "date" = None ->
        row ∈ intraday_records repr rows).
Proof.
  split; [|split].
  - intros out. apply json_ready_records_Ok.
  - intros e. apply json_ready_records_Raise.
  - intros row Hin Hv. unfold intraday_records.
    apply list_elem_of_fmap. exists row. split; [|exact Hin].
    unfold intraday_row. now rewrite Hv.
Qed.

Lemma record_loops_agree_witness :
  json_ready_records sample_repr
    [<["date" := VStr "2024-01-01"]> ∅; <["close" := VNum 110]> ∅]
  = Raise KeyError.
Proof.
  apply (record_loops_agree sample_repr
           [<["date" := VStr "2024-01-01"]> ∅; <["close" := VNum 110]> ∅]).
  split; [reflexivity|]. right. left. reflexivity.
Defined.

(** X20: the loops touch the ["date"] field only: a record keeps its keys
    and every other field, its date, if it has one, is a string
    afterwards, and a second pass of either loop returns the record as it
    is. *)
Theorem intraday_row_normal repr (row : gmap string value) :
  (forall k, k <> "date" ->
     intraday_row repr row !! k = row !! k)
  /\ dom (intraday_row repr row) = dom row
  /\ string_date (intraday_row repr row)
  /\ intraday_row repr (intraday_row repr row) = intraday_row repr row
  /\ (has_date row ->
      json_ready_row repr (intraday_row repr row) = Ok (intraday_row repr row)).
Proof.
  assert (Hs : string_date (intraday_row repr row)).
  { intros v. unfold intraday_row.
    destruct (row !! "date") as [d|] eqn:Hd.
    - rewrite lookup_insert_eq. intros H. now injection H as <-.
    - congruence. }
  assert (Hi : intraday_row repr (intraday_row repr row)
               = intraday_row repr row).
  { unfold intraday_row at 1 3.
    destruct (intraday_row repr row !! "date") as [v|] eqn:Hv;
      [|reflexivity].
    pose proof (Hs _ Hv) as Hstr. destruct v; try discriminate Hstr.
    simpl. now apply insert_id. }
  split; [|split; [|split; [exact Hs|split; [exact Hi|]]]].
  - intros k Hk. unfold intraday_row.
    destruct (row !! "date"); [|reflexivity].
    now rewrite lookup_insert_ne.
  - unfold intraday_row. destruct (row !! "date") as [d|] eqn:Hd;
      [|reflexivity].
    apply dom_insert_lookup_L. now exists d.
  - intros [d Hd]. rewrite json_ready_row_has_date, Hi; [reflexivity|].
    unfold has_date, intraday_row. rewrite Hd, lookup_insert_eq. eauto.
Qed.

Lemma intraday_row_normal_witness :
  json_ready_row sample_repr
    (intraday_row sample_repr
       (<["date" := VNum 20240102]> (<["close" := VNum 110]> ∅)))
  = Ok (intraday_row sample_repr
          (<["date" := VNum 20240102]> (<["close" := VNum 110]> ∅))).
Proof.
  apply (intraday_row_normal sample_repr
           (<["date" := VNum 20240102]> (<["close" := VNum 110]> ∅))).
  exists (VNum 20240102). reflexivity.
Defined.

Lemma orderable_strings (keys : list value) :
  Forall (fun k => is_str k = true) keys -> orderable keys = true.
Proof.
  intros HF.
  assert (Hs : forallb is_str keys = true).
  { induction HF as [|k keys Hk _ IH]; simpl; [reflexivity|].
    now rewrite Hk, IH. }
  destruct keys as [|a [|b keys]]; try reflexivity.
  unfold orderable. now rewrite Hs.
Qed.

(** X21: records that went through the loop of [prices_to_json_ready]
    can always be sorted by the engine: each has a date and all dates are
    strings, so the date sort raises neither [KeyError] nor [TypeError]. *)
Theorem json_ready_records_sortable repr (rows out : list (gmap string value)) :
  json_ready_records repr rows = Ok out ->
  exists ls,
    py_sorted (fun row => py_getitem row "date") (VDict <$> out) = Ok ls.
Proof.
  intros H. apply json_ready_records_Ok in H as [HF ->].
  assert (Hd : Forall (fun r => exists s, r !! "date" = Some (VStr s))
                 (intraday_records repr rows)).
  { unfold intraday_records. rewrite Forall_forall in HF.
    apply Forall_forall. intros r Hr.
    apply list_elem_of_fmap in Hr as (row & -> & Hrow).
    destruct (HF _ Hrow) as [d Hd]. unfold intraday_row. rewrite Hd.
    rewrite lookup_insert_eq. eauto. }
  set (out := intraday_records repr rows) in *. clearbody out.
  rewrite py_sorted_keyed.
  - rewrite orderable_strings; [eauto|].
    change (map date_of (VDict <$> out)) with (date_of <$> (VDict <$> out)).
    rewrite <- list_fmap_compose. apply Forall_fmap.
    eapply Forall_impl; [exact Hd|].
    intros r [s Hs]. unfold compose, date_of, py_getitem. now rewrite Hs.
  - apply Forall_fmap. eapply Forall_impl; [exact Hd|].
    intros r [s Hs]. unfold compose, date_of, py_getitem. now rewrite Hs.
Qed.

Lemma json_ready_records_sortable_witness :
  exists ls,
    py_sorted (fun row => py_getitem row "date")
      (VDict <$> [<["date" := VStr "2024-01-02 00:00:00"]>
                    (<["close" := VNum 110]> ∅);
                  <["date" := VStr "2024-01-01"]> (<["close" := VNum 100]> ∅)])
    = Ok ls.
Proof.
  apply (json_ready_records_sortable sample_repr
           [<["date" := VNum 20240102]> (<["close" := VNum 110]> ∅);
            <["date" := VStr "2024-01-01"]> (<["close" := VNum 100]> ∅)]).
  vm_compute. reflexivity.
Defined.
